(** * soroban: the replicated directory service

    A shallow embedding of [services/directory.go]: the three JSON-RPC
    handlers of the directory ([List], [Add], [Remove]), the two
    [VerifySignature] methods that gate them, and the gossip loop
    [StartP2PDirectory] that applies peer writes and tracks heartbeats.

    Conventions.
    - Go [int], [int64], [time.Duration] and instants are [Z]; instants and
      durations count nanoseconds (an instant is a number of nanoseconds
      since the Unix epoch).  No computation of the code modelled here
      leaves the 64-bit range for clock readings of this century.
    - Go's [error] is [option string]: [None] is [nil], [Some msg] an error
      carrying [msg].
    - A [[]string] is a [slice]: Go tells the nil slice from an empty one,
      and so does the JSON encoder ([null] against [[]]).
    - Every call of [time.Now()] is a parameter [now] of the function that
      makes it; the random source of [rand.Shuffle] is a parameter [draw].
    - The packages [confidential], [internal] and [p2p], and the
      implementations of the [soroban.Directory] interface, are not part of
      the sources at hand: they are type classes here, so every theorem
      holds for every implementation of them. *)

From Stdlib Require Import ZArith String Ascii DecimalString DecimalZ.
From stdpp Require Import base list strings gmap.

Local Open Scope string_scope.
Local Open Scope Z_scope.

(** ** Go primitives *)

Definition error := option string.

Definition errors_New (msg : string) : error := Some msg.

(** [[]string]: the nil slice, or a slice with its elements. *)
Inductive slice :=
| nil_slice
| make_slice (elems : list string).

Definition elements (s : slice) : list string :=
  match s with
  | nil_slice => []
  | make_slice l => l
  end.

(** [len(s)] *)
Definition len (s : slice) : Z := Z.of_nat (length (elements s)).

(** [s[:k]] for [0 <= k <= len(s)] (the only use in the code). *)
Definition slice_to (s : slice) (k : Z) : slice :=
  make_slice (take (Z.to_nat k) (elements s)).

(** The verbs [%d] and [%v] of [fmt.Sprintf] at an integer: decimal digits,
    a leading [-] for a negative number. *)
Definition fmt_d (z : Z) : string := NilEmpty.string_of_int (Z.to_int z).

Module time.
Definition Nanosecond : Z := 1.
Definition Second : Z := 1000000000 * Nanosecond.
Definition Minute : Z := 60 * Second.
Definition Hour : Z := 60 * Minute.
(** [t.Unix()]: the seconds since the epoch. *)
Definition Unix (t : Z) : Z := t / Second.
(** [time.Since(t)] read at [now]. *)
Definition Since (now t : Z) : Z := now - t.
End time.

(** ** package soroban: the directory interface *)

Module soroban.
(** [S] is the state of a directory backend.  [Status] is not used by the
    services below and is left out. *)
Class Directory (S : Type) := {
  TimeToLive : S -> string -> Z;
  List : S -> string -> slice * error;
  Add : S -> string -> string -> Z -> S * error;
  Remove : S -> string -> string -> S * error
}.
End soroban.

(** ** package confidential: the policy table and the signature check *)

Module confidential.
(** Modelled from the spec: the declaration of [ConfidentialEntry] is not
    among the sources; its fields are the ones [services/directory.go]
    reads ([Prefix], [Algorithm], [PublicKey], [Confidential], [ReadOnly]),
    the spec's Policy. *)
Record ConfidentialEntry := {
  Prefix : string;
  Algorithm : string;
  PublicKey : string;
  Confidential : bool;
  ReadOnly : bool
}.

(** [GetConfidentialInfo key publicKey] looks the namespace up in the
    policy table; [VerifySignature info publicKey message algorithm
    signature] is the cryptographic check. *)
Class Package := {
  GetConfidentialInfo : string -> string -> ConfidentialEntry;
  VerifySignature : ConfidentialEntry -> string -> string -> string -> string -> error
}.
End confidential.

(** ** package internal: what a request context carries *)

Module internal.
Record Context (S N : Type) := {
  DirectoryFromContext : option S;
  P2PFromContext : option N
}.
Arguments DirectoryFromContext {S N} _.
Arguments P2PFromContext {S N} _.
Arguments Build_Context {S N} _ _.
End internal.

(** ** package p2p: the gossip session *)

Module p2p.
(** [N] is the state of the session, [Message] an inbound message and [A]
    the type of the payloads ([PublishJson] takes an [interface{}], the
    code only passes directory entries). *)
Class P2P (N Message A : Type) := {
  PublishJson : N -> string -> A -> N * error;
  Context : Message -> string;
  ParsePayload : Message -> A * error
}.
End p2p.

(** ** package services *)

Module services.

(** [DirectoryEntries] for json-rpc request *)
Module DirectoryEntries.
Record t := {
  Name : string;
  Limit : Z;
  PublicKey : string;
  Algorithm : string;
  Signature : string;
  Timestamp : Z
}.
End DirectoryEntries.

(** [DirectoryEntriesResponse] for json-rpc response *)
Module DirectoryEntriesResponse.
Record t := {
  Name : string;
  Entries : slice
}.
(** The zero value, which is what the RPC server hands to a handler. *)
Definition zero : t := {| Name := ""; Entries := nil_slice |}.
End DirectoryEntriesResponse.

(** [DirectoryEntry] for json-rpc request *)
Module DirectoryEntry.
Record t := {
  Name : string;
  Entry : string;
  Mode : string;
  PublicKey : string;
  Algorithm : string;
  Signature : string;
  Timestamp : Z
}.
End DirectoryEntry.

Module Response.
(** Modelled from the spec: the declaration of [Response] is in a file of
    package services that is not among the sources; the handlers build it
    with the one field [Status], the spec's [{status}]. *)
Record t := {
  Status : string
}.
Definition zero : t := {| Status := "" |}.
End Response.

Definition timeInRange (start end_ check : Z) : bool :=
  (start <? check) && (check <? end_).

(** [len(info.Prefix) == 0 || len(info.Algorithm) == 0 || len(info.PublicKey) == 0] *)
Definition no_key (info : confidential.ConfidentialEntry) : bool :=
  (String.length (confidential.Prefix info) =? 0)%nat
  || (String.length (confidential.Algorithm info) =? 0)%nat
  || (String.length (confidential.PublicKey info) =? 0)%nat.

(** [fmt.Sprintf("%v.%v", p.Name, p.Timestamp/1000000)]: Go's integer
    division truncates toward zero. *)
Definition list_message (name : string) (timestamp : Z) : string :=
  name +:+ "." +:+ fmt_d (timestamp ÷ 1000000).

(** [fmt.Sprintf("%s.%d.%s", p.Name, p.Timestamp, p.Entry)] *)
Definition entry_message (name : string) (timestamp : Z) (entry : string) : string :=
  name +:+ "." +:+ fmt_d timestamp +:+ "." +:+ entry.

Definition PublicKey_not_allowed : error := errors_New "PublicKey not allowed".
Definition timestamp_not_in_time_range : error := errors_New "timestamp not in time range".

(** [func (p *DirectoryEntries) VerifySignature(info) error], with the
    reading [now] of the clock. *)
Definition DirectoryEntries_VerifySignature `{confidential.Package}
    (now : Z) (p : DirectoryEntries.t) (info : confidential.ConfidentialEntry) : error :=
  if no_key info then None
  else
    let timestamp := DirectoryEntries.Timestamp p in
    let delta := 24 * time.Hour in
    if negb (String.eqb (DirectoryEntries.PublicKey p) (confidential.PublicKey info))
    then PublicKey_not_allowed
    else if negb (timeInRange (now + - delta) (now + delta) timestamp)
    then timestamp_not_in_time_range
    else
      let message := list_message (DirectoryEntries.Name p) (DirectoryEntries.Timestamp p) in
      confidential.VerifySignature info (DirectoryEntries.PublicKey p) message
        (DirectoryEntries.Algorithm p) (DirectoryEntries.Signature p).

(** [func (p *DirectoryEntry) VerifySignature(info) error] *)
Definition DirectoryEntry_VerifySignature `{confidential.Package}
    (now : Z) (p : DirectoryEntry.t) (info : confidential.ConfidentialEntry) : error :=
  if no_key info then None
  else if negb (String.eqb (DirectoryEntry.PublicKey p) (confidential.PublicKey info))
  then PublicKey_not_allowed
  else
    let timestamp := DirectoryEntry.Timestamp p in
    let delta := 24 * time.Hour in
    if negb (timeInRange (now + - delta) (now + delta) timestamp)
    then timestamp_not_in_time_range
    else
      let message := entry_message (DirectoryEntry.Name p) (DirectoryEntry.Timestamp p)
                       (DirectoryEntry.Entry p) in
      confidential.VerifySignature info (DirectoryEntry.PublicKey p) message
        (DirectoryEntry.Algorithm p) (DirectoryEntry.Signature p).

(** [entries[i], entries[j] = entries[j], entries[i]]: both reads happen
    before the writes; an index out of range panics in Go, [Shuffle] never
    passes one. *)
Definition swap (entries : list string) (i j : nat) : list string :=
  match entries !! i, entries !! j with
  | Some x, Some y => <[j:=x]> (<[i:=y]> entries)
  | _, _ => entries
  end.

(** [rand.Shuffle(n, swap)]: for [i] from [n-1] down to [1], draw [j] in
    [[0, i]] and swap [i] and [j].  [draw i] is the number the source yields
    at step [i], brought into range as the source does. *)
Fixpoint shuffle_down (draw : nat -> nat) (i : nat) (entries : list string) : list string :=
  match i with
  | O => entries
  | S i' => shuffle_down draw i' (swap entries i (draw i mod (i + 1))%nat)
  end.

Definition Shuffle (draw : nat -> nat) (n : nat) (entries : list string) : list string :=
  shuffle_down draw (n - 1)%nat entries.

Section Handlers.
Context {S N Message : Type}.
Context `{!soroban.Directory S} `{!p2p.P2P N Message DirectoryEntry.t}.
Context `{!confidential.Package}.

(** [func addToDirectory(directory, args *DirectoryEntry) error]; a nil
    pointer is [None]. *)
Definition addToDirectory (directory : S) (args : option DirectoryEntry.t) : S * error :=
  match args with
  | None => (directory, errors_New "invalid args")
  | Some a =>
      soroban.Add directory (DirectoryEntry.Name a) (DirectoryEntry.Entry a)
        (soroban.TimeToLive directory (DirectoryEntry.Mode a))
  end.

(** [func removeFromDirectory(directory, args *DirectoryEntry) error] *)
Definition removeFromDirectory (directory : S) (args : option DirectoryEntry.t) : S * error :=
  match args with
  | None => (directory, errors_New "invalid args")
  | Some a => soroban.Remove directory (DirectoryEntry.Name a) (DirectoryEntry.Entry a)
  end.

(** [func (t *Directory) List(r, args, result) error].  The handler writes
    through the pointer [result] or leaves it alone: it maps the response
    it is given to the response it leaves.  Its own return value is always
    [nil]. *)
Definition List (draw : nat -> nat) (now : Z) (ctx : internal.Context S N)
    (args : DirectoryEntries.t) (result : DirectoryEntriesResponse.t)
    : DirectoryEntriesResponse.t :=
  match internal.DirectoryFromContext ctx with
  | None => result
  | Some directory =>
      let info := confidential.GetConfidentialInfo (DirectoryEntries.Name args)
                    (DirectoryEntries.PublicKey args) in
      match (if confidential.Confidential info
             then DirectoryEntries_VerifySignature now args info else None) with
      | Some _ => result
      | None =>
          match soroban.List directory (DirectoryEntries.Name args) with
          | (_, Some _) => result
          | (entries, None) =>
              let entries :=
                if (0 <? DirectoryEntries.Limit args)
                   && (DirectoryEntries.Limit args <? len entries)
                then slice_to
                       (make_slice (Shuffle draw (Z.to_nat (len entries)) (elements entries)))
                       (DirectoryEntries.Limit args)
                else entries in
              let entries :=
                match entries with
                | nil_slice => make_slice []
                | make_slice _ => entries
                end in
              {| DirectoryEntriesResponse.Name := DirectoryEntries.Name args;
                 DirectoryEntriesResponse.Entries := entries |}
          end
      end
  end.

(** [func (t *Directory) Add(r, args, result) error]: the context after the
    call and the response left in [result]. *)
Definition Add (now : Z) (ctx : internal.Context S N)
    (args : DirectoryEntry.t) (result : Response.t)
    : internal.Context S N * Response.t :=
  match internal.DirectoryFromContext ctx with
  | None => (ctx, result)
  | Some directory =>
      match internal.P2PFromContext ctx with
      | None => (ctx, result)
      | Some p2p =>
          let info := confidential.GetConfidentialInfo (DirectoryEntry.Name args)
                        (DirectoryEntry.PublicKey args) in
          match (if confidential.ReadOnly info
                 then DirectoryEntry_VerifySignature now args info else None) with
          | Some _ => (ctx, {| Response.Status := "error" |})
          | None =>
              match addToDirectory directory (Some args) with
              | (directory', Some _) =>
                  (internal.Build_Context (Some directory') (Some p2p),
                   {| Response.Status := "error" |})
              | (directory', None) =>
                  let (p2p', _) := p2p.PublishJson p2p "Directory.Add" args in
                  (internal.Build_Context (Some directory') (Some p2p'),
                   {| Response.Status := "success" |})
              end
          end
      end
  end.

(** [func (t *Directory) Remove(r, args, result) error] *)
Definition Remove (now : Z) (ctx : internal.Context S N)
    (args : DirectoryEntry.t) (result : Response.t)
    : internal.Context S N * Response.t :=
  match internal.DirectoryFromContext ctx with
  | None => (ctx, result)
  | Some directory =>
      let info := confidential.GetConfidentialInfo (DirectoryEntry.Name args)
                    (DirectoryEntry.PublicKey args) in
      match (if confidential.ReadOnly info
             then DirectoryEntry_VerifySignature now args info else None) with
      | Some _ => (ctx, result)
      | None =>
          match internal.P2PFromContext ctx with
          | None => (ctx, result)
          | Some p2p =>
              let (directory', err) := removeFromDirectory directory (Some args) in
              let status := match err with Some _ => "error" | None => "success" end in
              let (p2p', _) := p2p.PublishJson p2p "Directory.Remove" args in
              (internal.Build_Context (Some directory') (Some p2p'),
               {| Response.Status := status |})
          end
      end
  end.

(** *** The gossip loop of [StartP2PDirectory] *)

(** The variables of the loop, with the two objects it works on. *)
Record loop := {
  directory : S;
  p2P : N;
  timeoutDelay : Z;
  lastHeartbeatTimestamp : Z
}.

(** The three cases of the [select]. *)
Inductive event :=
| OnMessage (message : Message)
| After30s
| CtxDone.

(** How an iteration ends: the loop goes on, the process exits
    ([os.Exit(0)]), or the function returns. *)
Inductive control :=
| Continue
| Exit (code : Z)
| Return.

(** The heartbeat the loop publishes at a tick. *)
Definition heartbeat (now : Z) : DirectoryEntry.t :=
  {| DirectoryEntry.Name := "p2p.heartbeat";
     DirectoryEntry.Entry := fmt_d (time.Unix now);
     DirectoryEntry.Mode := "short";
     DirectoryEntry.PublicKey := "";
     DirectoryEntry.Algorithm := "";
     DirectoryEntry.Signature := "";
     DirectoryEntry.Timestamp := 0 |}.

(** One iteration of the [for { select { ... } }], on the event that is
    ready, with the reading [now] of the clock in that iteration. *)
Definition iteration (now : Z) (st : loop) (ev : event) : control * loop :=
  match ev with
  | OnMessage message =>
      match p2p.ParsePayload message with
      | (_, Some _) => (Continue, st)
      | (args, None) =>
          if String.eqb (DirectoryEntry.Name args) "p2p.heartbeat"
          then (Continue,
                {| directory := directory st; p2P := p2P st;
                   timeoutDelay := 3 * time.Minute;
                   lastHeartbeatTimestamp := now |})
          else
            let (directory', _) :=
              if String.eqb (p2p.Context message) "Directory.Add"
              then addToDirectory (directory st) (Some args)
              else if String.eqb (p2p.Context message) "Directory.Remove"
              then removeFromDirectory (directory st) (Some args)
              else (directory st, None) in
            (Continue,
             {| directory := directory'; p2P := p2P st;
                timeoutDelay := timeoutDelay st;
                lastHeartbeatTimestamp := lastHeartbeatTimestamp st |})
      end
  | After30s =>
      if timeoutDelay st <? time.Since now (lastHeartbeatTimestamp st)
      then (Exit 0, st)
      else
        let (p2P', _) := p2p.PublishJson (p2P st) "Directory.Add" (heartbeat now) in
        (Continue,
         {| directory := directory st; p2P := p2P';
            timeoutDelay := timeoutDelay st;
            lastHeartbeatTimestamp := lastHeartbeatTimestamp st |})
  | CtxDone => (Return, st)
  end.

(** The loop over the events that become ready, each with its clock
    reading; it stops at the first iteration that leaves the loop. *)
Fixpoint run (st : loop) (events : list (Z * event)) : control * loop :=
  match events with
  | [] => (Continue, st)
  | (now, ev) :: events' =>
      match iteration now st ev with
      | (Continue, st') => run st' events'
      | stopped => stopped
      end
  end.

(** The variables of the loop as [StartP2PDirectory] sets them before the
    first iteration, at the clock reading [now]. *)
Definition start_loop (now : Z) (directory : S) (p2P : N) : loop :=
  {| directory := directory; p2P := p2P;
     timeoutDelay := 15 * time.Minute;
     lastHeartbeatTimestamp := now |}.

(** [func StartP2PDirectory(ctx, p2pSeed, bootstrap, listenPort, room,
    ready)]: [None] when it returns before the loop (invalid bootstrap or
    room, no directory or no session in the context). *)
Definition StartP2PDirectory (now : Z) (ctx : internal.Context S N)
    (bootstrap room : string) (events : list (Z * event)) : option (control * loop) :=
  if (String.length bootstrap =? 0)%nat then None
  else if (String.length room =? 0)%nat then None
  else
    match internal.DirectoryFromContext ctx with
    | None => None
    | Some directory =>
        match internal.P2PFromContext ctx with
        | None => None
        | Some p2P => Some (run (start_loop now directory p2P) events)
        end
    end.

End Handlers.

End services.

(** ** The handlers of the earlier revision of [services/directory.go]

    The revision without replication: [List], the two [VerifySignature]
    and [timeInRange] read as above; [Add] and [Remove] work on the
    directory alone. *)

Module services_rev0.
Section Handlers.
Context {S N : Type}.
Context `{!soroban.Directory S} `{!confidential.Package}.

(** [func (t *Directory) Add(r, args, result) error] *)
Definition Add (now : Z) (ctx : internal.Context S N)
    (args : services.DirectoryEntry.t) (result : services.Response.t)
    : internal.Context S N * services.Response.t :=
  match internal.DirectoryFromContext ctx with
  | None => (ctx, result)
  | Some directory =>
      let info := confidential.GetConfidentialInfo (services.DirectoryEntry.Name args)
                    (services.DirectoryEntry.PublicKey args) in
      match (if confidential.ReadOnly info
             then services.DirectoryEntry_VerifySignature now args info else None) with
      | Some _ => (ctx, {| services.Response.Status := "error" |})
      | None =>
          match soroban.Add directory (services.DirectoryEntry.Name args)
                  (services.DirectoryEntry.Entry args)
                  (soroban.TimeToLive directory (services.DirectoryEntry.Mode args)) with
          | (directory', Some _) =>
              (internal.Build_Context (Some directory') (internal.P2PFromContext ctx),
               {| services.Response.Status := "error" |})
          | (directory', None) =>
              (internal.Build_Context (Some directory') (internal.P2PFromContext ctx),
               {| services.Response.Status := "success" |})
          end
      end
  end.

(** [func (t *Directory) Remove(r, args, result) error] *)
Definition Remove (now : Z) (ctx : internal.Context S N)
    (args : services.DirectoryEntry.t) (result : services.Response.t)
    : internal.Context S N * services.Response.t :=
  match internal.DirectoryFromContext ctx with
  | None => (ctx, result)
  | Some directory =>
      let info := confidential.GetConfidentialInfo (services.DirectoryEntry.Name args)
                    (services.DirectoryEntry.PublicKey args) in
      match (if confidential.ReadOnly info
             then services.DirectoryEntry_VerifySignature now args info else None) with
      | Some _ => (ctx, result)
      | None =>
          let (directory', err) :=
            soroban.Remove directory (services.DirectoryEntry.Name args)
              (services.DirectoryEntry.Entry args) in
          let status := match err with Some _ => "error" | None => "success" end in
          (internal.Build_Context (Some directory') (internal.P2PFromContext ctx),
           {| services.Response.Status := status |})
      end
  end.

End Handlers.
End services_rev0.

(** ** Go's [encoding/base32] and [strings.ToLower]

    The standard encoding of RFC 4648 as [base32.StdEncoding] implements
    it, five bytes to eight digits with [=] as padding, and the lower case
    of ASCII text.  Bytes are integers from 0 to 255. *)

Module base32.

Definition encodeStd : string := "ABCDEFGHIJKLMNOPQRSTUVWXYZ234567".

(** [enc.encode[i]] *)
Definition digit (i : Z) : ascii :=
  default "="%char (String.get (Z.to_nat i) encodeStd).

(** The eight 5-bit blocks of five bytes, by the shifts and masks of
    [Encode]. *)
Definition quantum (s0 s1 s2 s3 s4 : Z) : list Z :=
  [ Z.shiftr s0 3;
    Z.lor (Z.land (Z.shiftl s0 2) 31) (Z.land (Z.shiftr s1 6) 31);
    Z.land (Z.shiftr s1 1) 31;
    Z.lor (Z.land (Z.shiftl s1 4) 31) (Z.land (Z.shiftr s2 4) 31);
    Z.lor (Z.land (Z.shiftl s2 1) 31) (Z.shiftr s3 7);
    Z.land (Z.shiftr s3 2) 31;
    Z.lor (Z.land (Z.shiftl s3 3) 31) (Z.shiftr s4 5);
    Z.land s4 31 ].

Definition digits (n : nat) (q : list Z) : string :=
  string_of_list_ascii (map digit (take n q)).

Fixpoint EncodeToString (src : list Z) : string :=
  match src with
  | [] => ""
  | [s0] => digits 2 (quantum s0 0 0 0 0) +:+ "======"
  | [s0; s1] => digits 4 (quantum s0 s1 0 0 0) +:+ "===="
  | [s0; s1; s2] => digits 5 (quantum s0 s1 s2 0 0) +:+ "==="
  | [s0; s1; s2; s3] => digits 7 (quantum s0 s1 s2 s3 0) +:+ "="
  | s0 :: s1 :: s2 :: s3 :: s4 :: rest =>
      digits 8 (quantum s0 s1 s2 s3 s4) +:+ EncodeToString rest
  end.

End base32.

Module go_strings.

Definition to_lower (c : ascii) : ascii :=
  let n := N_of_ascii c in
  if ((65 <=? n) && (n <=? 90))%N then ascii_of_N (n + 32) else c.

(** [strings.ToLower] on ASCII text. *)
Fixpoint ToLower (s : string) : string :=
  match s with
  | EmptyString => EmptyString
  | String c s' => String (to_lower c) (ToLower s')
  end.

End go_strings.

(** ** package server: the key generation of [server/gen.go]

    The hash functions and the base64 encoding are parameters: [Sum512] is
    [sha512.Sum512], [Sum256] is [sha3.Sum256], [base64] is
    [base64.StdEncoding.EncodeToString]. *)

Module server.

(** Hidden service version. *)
Definition version : Z := 3.

(** Salt used to create checkdigits. *)
Definition salt : string := ".onion checksum".

(** [[]byte(s)] *)
Definition bytes (s : string) : list Z :=
  map (λ c, Z.of_N (N_of_ascii c)) (list_ascii_of_string s).

(** A [[]byte] as [expandKey] slices it: the bytes up to its length, and
    the bytes of its array from its length up to its capacity, which a
    slice expression reaches. *)
Record byte_slice := {
  elements : list Z;
  spare : list Z
}.

(** [len(s)] and [cap(s)] *)
Definition len (s : byte_slice) : nat := length (elements s).

Definition cap (s : byte_slice) : nat := (length (elements s) + length (spare s))%nat.

(** [s[:high]]: the bytes of the slice it gives, or [None] where the
    expression panics (slice bounds out of range, [high > cap(s)]). *)
Definition slice_to (s : byte_slice) (high : nat) : option (list Z) :=
  if (high <=? cap s)%nat
  then Some (take high (elements s ++ spare s)%list)
  else None.

Section Gen.
Variables Sum512 Sum256 : list Z → list Z.
Variable base64 : list Z → string.

(** The array [h] of [expandKey] after its three assignments:
    [h[0] &= 248], [h[31] &= 127], [h[31] |= 64]; [None] where
    [pri[:32]] panics.  [Sum512] returns a [[64]byte]: the three indices
    are in range. *)
Definition expanded (pri : byte_slice) : option (list Z) :=
  match slice_to pri 32 with
  | None => None
  | Some seed =>
      let h := Sum512 seed in
      let h := alter (λ b, Z.land b 248) 0%nat h in
      let h := alter (λ b, Z.land b 127) 31%nat h in
      Some (alter (λ b, Z.lor b 64) 31%nat h)
  end.

(** [func expandKey(pri ed25519.PrivateKey) string]; [None] where it
    panics. *)
Definition expandKey (pri : byte_slice) : option string :=
  match expanded pri with
  | None => None
  | Some h => Some (base64 h)
  end.

(** [func getCheckdigits(pub ed25519.PublicKey) []byte] *)
Definition getCheckdigits (pub : list Z) : list Z :=
  let checkstr := bytes salt in
  let checkstr := (checkstr ++ pub)%list in
  let checkstr := (checkstr ++ [version])%list in
  take 2 (Sum256 checkstr).

(** [func getServiceID(pub ed25519.PublicKey) string] *)
Definition getServiceID (pub : list Z) : string :=
  let checkdigits := getCheckdigits pub in
  let combined := pub in
  let combined := (combined ++ checkdigits)%list in
  let combined := (combined ++ [version])%list in
  go_strings.ToLower (base32.EncodeToString combined).

End Gen.

End server.

(** ** package main: [cmd/server/main.go]

    The flags as [flag.Parse] leaves them are a record; [init] maps them
    to the flags the program runs with, or ends the process.  [main] and
    [run] call into packages that are not among the sources: each call is
    an action of a trace, and what the calls answer is the environment.
    The trace is that of the goroutine of [main], in program order: a
    [go] statement is the action [Go] of the call it starts, and the call
    itself, which runs beside the statements that follow, is no action of
    the trace.  A call into the packages answers, but for the two that are
    written to wait: [server.GenKey], which receives from the channel of
    [context.Background()], and [WaitForExit]. *)

Module main.

Record flags := {
  logLevel : string;
  prefix : string;
  config : string;
  domain : string;
  seed : string;
  export : string;
  withTor : bool;
  hostname : string;
  port : Z;
  directoryType : string;
  directoryHost : string;
  directoryPort : Z;
  p2pBootstrap : string;
  p2pRoom : string
}.

(** How [main] ends: it returns, the process is ended by [log.Fatal] with
    a message, the process ends inside a call with an exit code, or [main]
    waits for ever. *)
Inductive ending :=
| Returned
| Fatal (message : string)
| Exited (code : Z)
| Waiting.

(** How [run] ends: it returns an error or [nil], the process is ended by
    [log.Fatalf] with a message, the process ends inside a call with an
    exit code, or [run] waits for ever. *)
Inductive result :=
| Return (err : error)
| LogFatal (message : string)
| Ends (code : Z)
| Blocks.

(** The log level [init] sets: the one [logLevel] parses to, [info] when
    it does not parse.  [ParseLevel] is logrus's. *)
Definition level_of {Level : Type} (ParseLevel : string → option Level) (InfoLevel : Level)
    (f : flags) : Level :=
  match ParseLevel (logLevel f) with
  | Some level => level
  | None => InfoLevel
  end.

(** The part of [func init()] after [flag.Parse()]: the flags it leaves,
    or [None] when it ends the process ("Can't use seed without tor"). *)
Definition init (f : flags) : option flags :=
  let domain := if (String.length (domain f) =? 0)%nat then "samourai" else domain f in
  let withTor := if negb (String.length (export f) =? 0)%nat then true else withTor f in
  if negb withTor && negb (String.length (seed f) =? 0)%nat then None
  else
    let directoryType :=
      if (String.length (directoryType f) =? 0)%nat then "default" else directoryType f in
    let directoryHost :=
      if (String.length (directoryHost f) =? 0)%nat then "localhost" else directoryHost f in
    let directoryPort := if directoryPort f =? 0 then 6379 else directoryPort f in
    Some {| logLevel := logLevel f; prefix := prefix f; config := config f;
            domain := domain; seed := seed f; export := export f;
            withTor := withTor; hostname := hostname f; port := port f;
            directoryType := directoryType; directoryHost := directoryHost;
            directoryPort := directoryPort;
            p2pBootstrap := p2pBootstrap f; p2pRoom := p2pRoom f |}.

(** [soroban.Options] as [run] fills it. *)
Record Options := {
  Domain : string;
  DirectoryType : string;
  Directory_Hostname : string;
  Directory_Port : Z;
  WithTor : bool;
  P2P_Bootstrap : string;
  P2P_Room : string
}.

Inductive Signal :=
| SIGINT
| SIGTERM.

(** The calls [main], [run] and [WaitForExit] make, and their [go]
    statements.  [AwaitSignal] is the function literal of [WaitForExit]:
    it receives a signal, prints [Soroban exited] and sends on [done]. *)
Inductive action :=
| ExportHiddenServiceSecret (seed : string)
| WriteFile (name : string) (data : list Z) (perm : Z)
| GenKey (prefix : string)
| ConfigWatcher (config : string)
| New (options : Options)
| RegisterAll
| Print (text : string)
| StartWithTor (port : Z) (seed : string)
| Start (hostname : string) (port : Z)
| WaitForStart
| Notify (signals : list Signal)
| AwaitSignal
| Stop
| Go (call : action).

(** What the calls answer.  [generated] is how the process ends inside
    [server.GenKey], which does not return: with the code 0 of the
    [os.Exit(0)] of its counting goroutine, with the code of a panic, or,
    [None], not at all.  [interrupted] tells whether SIGINT or SIGTERM
    reaches the process while [WaitForExit] waits. *)
Record environment := {
  exported : string → list Z * error;
  written : string → list Z → error;
  generated : option Z;
  created : bool;
  registered : error;
  started : error;
  ID : string;
  interrupted : bool
}.

(** [func WaitForExit(ctx context.Context)] on a context that is never
    done, as the [context.Background()] that [run] passes: its calls, and
    whether it returns.  The [select] returns from the receive on [done],
    which the goroutine feeds after a signal, and from nothing else. *)
Definition WaitForExit (env : environment) : list action * bool :=
  ([Notify [SIGINT; SIGTERM]; Go AwaitSignal], interrupted env).

(** [func run() error]: the calls it makes, and how it ends.  The
    deferred [soroban.Stop] is called when [run] returns past the [defer]
    statement, which is when [WaitForExit] returns. *)
Definition run (env : environment) (f : flags) : list action * result :=
  if (0 <? String.length (prefix f))%nat
  then ([GenKey (prefix f)],
        match generated env with
        | Some code => Ends code
        | None => Blocks
        end)
  else
    let watch :=
      if (0 <? String.length (config f))%nat then [Go (ConfigWatcher (config f))] else [] in
    let options :=
      {| Domain := domain f; DirectoryType := directoryType f;
         Directory_Hostname := directoryHost f; Directory_Port := directoryPort f;
         WithTor := withTor f;
         P2P_Bootstrap := p2pBootstrap f; P2P_Room := p2pRoom f |} in
    let calls := (watch ++ [New options])%list in
    if negb (created env)
    then (calls, Return (errors_New "Fails to create Soroban server"))
    else
      let calls := (calls ++ [RegisterAll])%list in
      match registered env with
      | Some e => (calls, LogFatal e)
      | None =>
          let calls := (calls ++ [Print "Staring soroban..."])%list in
          let calls :=
            (calls ++ [if withTor f then StartWithTor (port f) (seed f)
                       else Start (hostname f) (port f)])%list in
          match started env with
          | Some e => (calls, Return (Some e))
          | None =>
              let started_text :=
                if negb (String.length (ID env) =? 0)%nat
                then "Soroban started: http://" +:+ ID env +:+ ".onion"
                else "Soroban started: http://" +:+ hostname f +:+ ":"
                       +:+ fmt_d (port f) +:+ "/" in
              let calls := (calls ++ [WaitForStart; Print started_text])%list in
              let '(waiting, returned) := WaitForExit env in
              let calls := (calls ++ waiting)%list in
              if returned then ((calls ++ [Stop])%list, Return None)
              else (calls, Blocks)
          end
      end.

(** [func main()] *)
Definition main (env : environment) (f : flags) : list action * ending :=
  if (0 <? String.length (export f))%nat && (0 <? String.length (seed f))%nat
  then
    match exported env (seed f) with
    | (_, Some e) => ([ExportHiddenServiceSecret (seed f)], Fatal e)
    | (data, None) =>
        ([ExportHiddenServiceSecret (seed f); WriteFile (export f) data 384],
         match written env (export f) data with
         | Some e => Fatal e
         | None => Returned
         end)
    end
  else
    match run env f with
    | (calls, Return None) => (calls, Returned)
    | (calls, Return (Some e)) => (calls, Fatal e)
    | (calls, LogFatal e) => (calls, Fatal e)
    | (calls, Ends code) => (calls, Exited code)
    | (calls, Blocks) => (calls, Waiting)
    end.

(** The program: [init], then [main]. *)
Definition program (env : environment) (f : flags) : list action * ending :=
  match init f with
  | None => ([], Fatal "Can't use seed without tor")
  | Some f' => main env f'
  end.

End main.

(** ** Concrete backends, to run the handlers on

    None of this is code of the repository: a directory kept in memory that
    also records the calls made on it, a gossip session that keeps what is
    published, and a policy table with the single prefix [secure]. *)

Module fixture.

Inductive call :=
| called_Add (key value : string) (TTL : Z)
| called_Remove (key value : string).

Record memory := {
  values : gmap string (list string);
  calls : list call
}.

Definition empty : memory := {| values := ∅; calls := [] |}.

Definition memory_List (m : memory) (key : string) : slice * error :=
  match values m !! key with
  | Some l => (make_slice l, None)
  | None => (nil_slice, None)
  end.

Definition memory_Add (m : memory) (key value : string) (TTL : Z) : memory * error :=
  let m' := {| values := values m; calls := (calls m ++ [called_Add key value TTL])%list |} in
  if TTL <? time.Second then (m', errors_New "invalid TTL")
  else
    ({| values := <[key := (default [] (values m !! key) ++ [value])%list]> (values m);
        calls := calls m' |}, None).

Definition memory_Remove (m : memory) (key value : string) : memory * error :=
  ({| values :=
        <[key := filter (λ v, v ≠ value) (default [] (values m !! key))]> (values m);
      calls := (calls m ++ [called_Remove key value])%list |}, None).

Definition memory_TimeToLive (m : memory) (mode : string) : Z :=
  if String.eqb mode "short" then time.Minute else 15 * time.Minute.

#[global] Instance memory_Directory : soroban.Directory memory := {|
  soroban.TimeToLive := memory_TimeToLive;
  soroban.List := memory_List;
  soroban.Add := memory_Add;
  soroban.Remove := memory_Remove
|}.

(** The directory that holds the values [l] under [key] and nothing else. *)
Definition holding (key : string) (l : list string) : memory :=
  {| values := {[ key := l ]}; calls := [] |}.

(** A gossip message: its context and its payload, [None] when the payload
    does not parse. *)
Record message := {
  context : string;
  payload : option services.DirectoryEntry.t
}.

Definition entry (name value mode : string) : services.DirectoryEntry.t :=
  {| services.DirectoryEntry.Name := name;
     services.DirectoryEntry.Entry := value;
     services.DirectoryEntry.Mode := mode;
     services.DirectoryEntry.PublicKey := "";
     services.DirectoryEntry.Algorithm := "";
     services.DirectoryEntry.Signature := "";
     services.DirectoryEntry.Timestamp := 0 |}.

Definition outbox := list (string * services.DirectoryEntry.t).

Definition parse (m : message) : services.DirectoryEntry.t * error :=
  match payload m with
  | Some e => (e, None)
  | None => (entry "" "" "", errors_New "invalid payload")
  end.

#[global] Instance outbox_P2P : p2p.P2P outbox message services.DirectoryEntry.t := {|
  p2p.PublishJson := λ out ctx e, ((out ++ [(ctx, e)])%list, None);
  p2p.Context := context;
  p2p.ParsePayload := parse
|}.

Definition secure : confidential.ConfidentialEntry :=
  {| confidential.Prefix := "secure";
     confidential.Algorithm := "ed25519";
     confidential.PublicKey := "PK1";
     confidential.Confidential := true;
     confidential.ReadOnly := true |}.

Definition unmanaged : confidential.ConfidentialEntry :=
  {| confidential.Prefix := "";
     confidential.Algorithm := "";
     confidential.PublicKey := "";
     confidential.Confidential := false;
     confidential.ReadOnly := false |}.

(** A policy entry with a pinned key and no algorithm. *)
Definition no_algorithm : confidential.ConfidentialEntry :=
  {| confidential.Prefix := "secure";
     confidential.Algorithm := "";
     confidential.PublicKey := "PK1";
     confidential.Confidential := true;
     confidential.ReadOnly := true |}.

(** A stand-in for the signature scheme: the signature of [message] under
    [publicKey] is the text [publicKey:message]. *)
Definition sign (publicKey message : string) : string :=
  publicKey +:+ ":" +:+ message.

#[global] Instance table : confidential.Package | 100 := {|
  confidential.GetConfidentialInfo := λ key _,
    if String.prefix "secure" key then secure else unmanaged;
  confidential.VerifySignature := λ _ publicKey message _ signature,
    if String.eqb signature (sign publicKey message) then None
    else errors_New "invalid signature"
|}.

Definition context_of (m : memory) : internal.Context memory outbox :=
  internal.Build_Context (Some m) (Some []).

(** A signed request on an entry, and one to list. *)
Definition signed_entry (name value mode publicKey signature : string) (timestamp : Z)
    : services.DirectoryEntry.t :=
  {| services.DirectoryEntry.Name := name;
     services.DirectoryEntry.Entry := value;
     services.DirectoryEntry.Mode := mode;
     services.DirectoryEntry.PublicKey := publicKey;
     services.DirectoryEntry.Algorithm := "ed25519";
     services.DirectoryEntry.Signature := signature;
     services.DirectoryEntry.Timestamp := timestamp |}.

Definition signed_list (name : string) (limit : Z) (publicKey signature : string)
    (timestamp : Z) : services.DirectoryEntries.t :=
  {| services.DirectoryEntries.Name := name;
     services.DirectoryEntries.Limit := limit;
     services.DirectoryEntries.PublicKey := publicKey;
     services.DirectoryEntries.Algorithm := "ed25519";
     services.DirectoryEntries.Signature := signature;
     services.DirectoryEntries.Timestamp := timestamp |}.

(** What the directory of a context lists under [key]. *)
Definition listed (ctx : internal.Context memory outbox) (key : string) : list string :=
  match internal.DirectoryFromContext ctx with
  | Some m => elements (fst (memory_List m key))
  | None => []
  end.

(** One signature and two requests that carry it: a write of the entry
    [1700000000000] to [secure], stamped at noon, and a listing of the
    namespace [secure.1700000000000000000], stamped at noon. *)
Definition crossing_signature : string :=
  sign "PK1" "secure.1700000000000000000.1700000000000".

Definition crossing_write : services.DirectoryEntry.t :=
  signed_entry "secure" "1700000000000" "default" "PK1" crossing_signature
    1700000000000000000.

Definition crossing_list : services.DirectoryEntries.t :=
  signed_list "secure.1700000000000000000" 0 "PK1" crossing_signature
    1700000000000000000.

(** One day, and a clock reading to run the examples at. *)
Definition day : Z := 24 * time.Hour.
Definition noon : Z := 1700000000 * time.Second.

(** A well-formed gossip message, the loop as it starts at [noon] on the
    empty directory, and a run of it: a heartbeat after one minute, a write
    after two, a tick thirty seconds later. *)
Definition gossip (ctx : string) (e : services.DirectoryEntry.t) : message :=
  {| context := ctx; payload := Some e |}.

Definition started : services.loop (S := memory) (N := outbox) :=
  services.start_loop noon empty [].

Definition quiet_run : list (Z * services.event (Message := message)) :=
  [ (noon + 1 * time.Minute,
     services.OnMessage
       (gossip "Directory.Add" (services.heartbeat (noon + 1 * time.Minute))));
    (noon + 2 * time.Minute,
     services.OnMessage (gossip "Directory.Add" (entry "pairing" "xyz" "short")));
    (noon + 2 * time.Minute + 30 * time.Second, services.After30s) ].

(** A write to [secure] signed under the pinned key at [noon], and a run
    of the loop that ends the process: one heartbeat, then a tick four
    minutes after it. *)
Definition signed_v1 : services.DirectoryEntry.t :=
  signed_entry "secure" "v1" "default" "PK1"
    (sign "PK1" (services.entry_message "secure" noon "v1")) noon.

Definition fatal_run : list (Z * services.event (Message := message)) :=
  [ (noon + 1 * time.Minute,
     services.OnMessage
       (gossip "Directory.Add" (services.heartbeat (noon + 1 * time.Minute))));
    (noon + 5 * time.Minute, services.After30s) ].

End fixture.

(** ** Stand-ins for the parameters of [server] and [main]

    None of this is code of the repository: two functions with the output
    sizes of SHA-512 and SHA3-256, a text for every array of bytes, a
    public key, private keys, flags and environments. *)

Module sample.

Definition Sum512 (x : list Z) : list Z :=
  map (λ i, (37 * Z.of_nat i + Z.of_nat (length x)) `mod` 256) (seq 0 64).

Definition Sum256 (x : list Z) : list Z :=
  map (λ i, (91 * Z.of_nat i + Z.of_nat (length x)) `mod` 256) (seq 0 32).

(** A text for every array of bytes, in place of the base64 encoder. *)
Definition base64 (x : list Z) : string :=
  string_of_list_ascii (map (λ b, ascii_of_N (Z.to_N b)) x).

Definition pub : list Z := map (λ i, 7 * Z.of_nat i + 3) (seq 0 32).

(** A private key as [ed25519.GenerateKey] gives it, 64 bytes with no
    spare capacity; the first 16 bytes of it with the capacity kept; and
    the first 16 bytes alone. *)
Definition pri : server.byte_slice :=
  {| server.elements := (map (λ i, 5 * Z.of_nat i) (seq 0 32) ++ pub)%list;
     server.spare := [] |}.

Definition pri_cut : server.byte_slice :=
  {| server.elements := take 16 (server.elements pri);
     server.spare := drop 16 (server.elements pri) |}.

Definition pri_short : server.byte_slice :=
  {| server.elements := take 16 (server.elements pri);
     server.spare := [] |}.

(** The flags of [soroban-server -seed 00ff], the other flags at their
    defaults, and the same with [-withTor]. *)
Definition seed_only : main.flags :=
  {| main.logLevel := "info"; main.prefix := ""; main.config := "";
     main.domain := ""; main.seed := "00ff"; main.export := "";
     main.withTor := false; main.hostname := "localhost"; main.port := 4242;
     main.directoryType := ""; main.directoryHost := ""; main.directoryPort := 0;
     main.p2pBootstrap := ""; main.p2pRoom := "samourai" |}.

Definition seed_with_tor : main.flags :=
  {| main.logLevel := "info"; main.prefix := ""; main.config := "";
     main.domain := ""; main.seed := "00ff"; main.export := "";
     main.withTor := true; main.hostname := "localhost"; main.port := 4242;
     main.directoryType := ""; main.directoryHost := ""; main.directoryPort := 0;
     main.p2pBootstrap := ""; main.p2pRoom := "samourai" |}.

(** A run in which every call succeeds and the process is interrupted in
    the end, and the same run with no signal. *)
Definition fine : main.environment :=
  {| main.exported := λ _, ([1; 2; 3], None);
     main.written := λ _ _, None;
     main.generated := Some 0;
     main.created := true;
     main.registered := None;
     main.started := None;
     main.ID := "";
     main.interrupted := true |}.

Definition unattended : main.environment :=
  {| main.exported := λ _, ([1; 2; 3], None);
     main.written := λ _ _, None;
     main.generated := None;
     main.created := true;
     main.registered := None;
     main.started := None;
     main.ID := "";
     main.interrupted := false |}.

(** The flags of [soroban-server -config keys.yml]. *)
Definition watching : main.flags :=
  {| main.logLevel := "info"; main.prefix := ""; main.config := "keys.yml";
     main.domain := ""; main.seed := ""; main.export := "";
     main.withTor := false; main.hostname := "localhost"; main.port := 4242;
     main.directoryType := ""; main.directoryHost := ""; main.directoryPort := 0;
     main.p2pBootstrap := ""; main.p2pRoom := "samourai" |}.

(** The flags of [soroban-server -seed 00ff -export key.bin -prefix ab], and
    the options [run] makes of [seed_with_tor] after [init]. *)
Definition exporting : main.flags :=
  {| main.logLevel := "info"; main.prefix := "ab"; main.config := "";
     main.domain := ""; main.seed := "00ff"; main.export := "key.bin";
     main.withTor := false; main.hostname := "localhost"; main.port := 4242;
     main.directoryType := ""; main.directoryHost := ""; main.directoryPort := 0;
     main.p2pBootstrap := ""; main.p2pRoom := "samourai" |}.

Definition options : main.Options :=
  {| main.Domain := "samourai"; main.DirectoryType := "default";
     main.Directory_Hostname := "localhost"; main.Directory_Port := 6379;
     main.WithTor := true; main.P2P_Bootstrap := ""; main.P2P_Room := "samourai" |}.

End sample.

(** ** Notions used by the statements *)

(** Whether a string holds a full stop. *)
Fixpoint has_dot (s : string) : bool :=
  match s with
  | EmptyString => false
  | String c s' => Ascii.eqb c "." || has_dot s'
  end.

(** The policy has a prefix, an algorithm and a pinned key: the case in
    which the two [VerifySignature] go past their first test. *)
Definition managed (info : confidential.ConfidentialEntry) : Prop :=
  confidential.Prefix info ≠ "" ∧ confidential.Algorithm info ≠ ""
  ∧ confidential.PublicKey info ≠ "".

(** The spec's unmanaged policy: no prefix, no algorithm and no key. *)
Definition spec_unmanaged (info : confidential.ConfidentialEntry) : Prop :=
  confidential.Prefix info = "" ∧ confidential.Algorithm info = ""
  ∧ confidential.PublicKey info = "".

(** The timestamp lies strictly between [now - 24h] and [now + 24h]. *)
Definition in_window (now timestamp : Z) : Prop :=
  now - 24 * time.Hour < timestamp < now + 24 * time.Hour.

(** One of the three is missing: the first test of the two
    [VerifySignature]. *)
Definition any_empty (info : confidential.ConfidentialEntry) : Prop :=
  confidential.Prefix info = "" ∨ confidential.Algorithm info = ""
  ∨ confidential.PublicKey info = "".

(** The order of the checks as the spec's SignatureVerifier lists them, for
    a verification [verify] of requests of type [P]: an unmanaged policy
    passes whatever the request; otherwise a claimed key that is not the
    pinned one is refused first, a timestamp out of the window next, and
    only then the signature is checked ([crypto]). *)
Definition checks_in_order {P : Type} (unmanaged : Prop)
    (key_matches in_time : P → Prop) (crypto verify : P → error) : Prop :=
  (unmanaged → ∀ p, verify p = None)
  ∧ (¬ unmanaged → ∀ p,
       (¬ key_matches p → verify p = services.PublicKey_not_allowed)
       ∧ (key_matches p → ¬ in_time p → verify p = services.timestamp_not_in_time_range)
       ∧ (key_matches p → in_time p → verify p = crypto p)).

(** The cryptographic check each method ends with, on its canonical
    message. *)
Definition crypto_List `{!confidential.Package} (info : confidential.ConfidentialEntry)
    (p : services.DirectoryEntries.t) : error :=
  confidential.VerifySignature info (services.DirectoryEntries.PublicKey p)
    (services.DirectoryEntries.Name p +:+ "."
       +:+ fmt_d (services.DirectoryEntries.Timestamp p ÷ 1000000))
    (services.DirectoryEntries.Algorithm p) (services.DirectoryEntries.Signature p).

Definition crypto_Entry `{!confidential.Package} (info : confidential.ConfidentialEntry)
    (p : services.DirectoryEntry.t) : error :=
  confidential.VerifySignature info (services.DirectoryEntry.PublicKey p)
    (services.DirectoryEntry.Name p +:+ "."
       +:+ fmt_d (services.DirectoryEntry.Timestamp p) +:+ "."
       +:+ services.DirectoryEntry.Entry p)
    (services.DirectoryEntry.Algorithm p) (services.DirectoryEntry.Signature p).

(** The check [List] makes once the policy is looked up, and the one [Add]
    and [Remove] make. *)
Definition List_check `{!confidential.Package}
    (now : Z) (args : services.DirectoryEntries.t) : error :=
  let info := confidential.GetConfidentialInfo (services.DirectoryEntries.Name args)
                (services.DirectoryEntries.PublicKey args) in
  if confidential.Confidential info
  then services.DirectoryEntries_VerifySignature now args info else None.

Definition write_check `{!confidential.Package}
    (now : Z) (args : services.DirectoryEntry.t) : error :=
  let info := confidential.GetConfidentialInfo (services.DirectoryEntry.Name args)
                (services.DirectoryEntry.PublicKey args) in
  if confidential.ReadOnly info
  then services.DirectoryEntry_VerifySignature now args info else None.

(** The request [p] with the mode [mode]. *)
Definition set_Mode (p : services.DirectoryEntry.t) (mode : string) : services.DirectoryEntry.t :=
  {| services.DirectoryEntry.Name := services.DirectoryEntry.Name p;
     services.DirectoryEntry.Entry := services.DirectoryEntry.Entry p;
     services.DirectoryEntry.Mode := mode;
     services.DirectoryEntry.PublicKey := services.DirectoryEntry.PublicKey p;
     services.DirectoryEntry.Algorithm := services.DirectoryEntry.Algorithm p;
     services.DirectoryEntry.Signature := services.DirectoryEntry.Signature p;
     services.DirectoryEntry.Timestamp := services.DirectoryEntry.Timestamp p |}.

(** A byte. *)
Definition byte (b : Z) : Prop := 0 ≤ b < 256.

(** The 256 bytes. *)
Definition all_bytes : list Z := map Z.of_nat (seq 0 256).

(** The number a list of bytes writes, least significant byte first. *)
Fixpoint little_endian (l : list Z) : Z :=
  match l with
  | [] => 0
  | b :: l' => b + 256 * little_endian l'
  end.

(** The characters of an onion address. *)
Definition onion_alphabet : list ascii :=
  list_ascii_of_string "abcdefghijklmnopqrstuvwxyz234567".

(** The blocks of [quantum] in arithmetic. *)
Definition quantum_arith (s0 s1 s2 s3 s4 : Z) : list Z :=
  [ s0 / 8; (s0 mod 8) * 4 + s1 / 64; (s1 / 2) mod 32; (s1 mod 2) * 16 + s2 / 16;
    (s2 mod 16) * 2 + s3 / 128; (s3 / 4) mod 32; (s3 mod 4) * 8 + s4 / 32; s4 mod 32 ].

Definition five_bit (d : Z) : Prop := 0 ≤ d < 32.

Definition lower_digit (d : Z) : ascii := go_strings.to_lower (base32.digit d).

Definition all_five_bits : list Z := map Z.of_nat (seq 0 32).

(** Picks the case of a disjunction that holds. *)
Ltac pick_case :=
  solve [ repeat split; done | eexists; reflexivity | left; pick_case | right; pick_case ].

Section Traces.
Context {N Message : Type} `{!p2p.P2P N Message services.DirectoryEntry.t}.

(** The payload of the message parses and carries the heartbeat name. *)
Definition is_heartbeat (message : Message) : bool :=
  match p2p.ParsePayload message with
  | (args, None) => String.eqb (services.DirectoryEntry.Name args) "p2p.heartbeat"
  | (_, Some _) => false
  end.

(** The event is the arrival of a heartbeat. *)
Definition heartbeat_event (ev : services.event (Message := Message)) : bool :=
  match ev with
  | services.OnMessage message => is_heartbeat message
  | _ => false
  end.

(** A heartbeat is among the events. *)
Definition heartbeat_seen (events : list (Z * services.event (Message := Message))) : bool :=
  existsb (λ e, heartbeat_event (snd e)) events.

(** The clock reading of the last message of the events, [since] when
    there is none. *)
Fixpoint last_message (since : Z) (events : list (Z * services.event (Message := Message))) : Z :=
  match events with
  | [] => since
  | (now, services.OnMessage _) :: events' => last_message now events'
  | _ :: events' => last_message since events'
  end.

(** The event is the arrival of a message. *)
Definition message_event (ev : services.event (Message := Message)) : bool :=
  match ev with
  | services.OnMessage _ => true
  | _ => false
  end.

(** The arrivals of messages among the events. *)
Definition messages_of (events : list (Z * services.event (Message := Message)))
    : list (Z * services.event (Message := Message)) :=
  List.filter (λ e, message_event (snd e)) events.

(** The clock reading of the last heartbeat of the events, [since] when
    there is none. *)
Fixpoint last_heartbeat (since : Z) (events : list (Z * services.event (Message := Message))) : Z :=
  match events with
  | [] => since
  | (now, ev) :: events' =>
      last_heartbeat (if heartbeat_event ev then now else since) events'
  end.

(** The liveness protocol as the spec words it (4.4), on the window and
    the time of the last heartbeat alone: a heartbeat sets the last
    heartbeat to now and the window to 3 minutes; a tick ends the process
    when more than the window has passed since the last heartbeat and
    changes nothing otherwise; the shutdown signal leaves the loop.  It
    gives how the loop ends and the window and last heartbeat it ends
    with. *)
Fixpoint spec_liveness (window last : Z)
    (events : list (Z * services.event (Message := Message))) : services.control * (Z * Z) :=
  match events with
  | [] => (services.Continue, (window, last))
  | (now, services.OnMessage message) :: events' =>
      if is_heartbeat message then spec_liveness (3 * time.Minute) now events'
      else spec_liveness window last events'
  | (now, services.After30s) :: events' =>
      if window <? now - last then (services.Exit 0, (window, last))
      else spec_liveness window last events'
  | (now, services.CtxDone) :: events' => (services.Return, (window, last))
  end.

(** The clock never goes back: the readings of the events, from [since]
    on, do not decrease. *)
Fixpoint clock_ok (since : Z) (events : list (Z * services.event (Message := Message))) : Prop :=
  match events with
  | [] => True
  | (now, _) :: events' => since <= now ∧ clock_ok now events'
  end.

End Traces.

(** * Properties *)

(** ** Strings and the canonical messages *)

Lemma length_zero_empty (s : string) : (String.length s =? 0)%nat = true ↔ s = "".
Proof.
  destruct s as [|c s]; simpl; split; intros Hs; try done.
Qed.

Lemma no_key_spec (info : confidential.ConfidentialEntry) :
  services.no_key info = false ↔ managed info.
Proof.
  unfold services.no_key, managed.
  rewrite !orb_false_iff.
  assert (Hl : ∀ s, (String.length s =? 0)%nat = false ↔ s ≠ "").
  { intros s. rewrite <- length_zero_empty. destruct (String.length s =? 0)%nat; split; congruence. }
  rewrite !Hl. tauto.
Qed.

Lemma no_key_empty (info : confidential.ConfidentialEntry) :
  services.no_key info = true ↔
  confidential.Prefix info = "" ∨ confidential.Algorithm info = ""
  ∨ confidential.PublicKey info = "".
Proof.
  unfold services.no_key.
  rewrite !orb_true_iff, !length_zero_empty. tauto.
Qed.

Lemma timeInRange_spec (now timestamp : Z) :
  services.timeInRange (now + - (24 * time.Hour)) (now + 24 * time.Hour) timestamp = true
  ↔ in_window now timestamp.
Proof.
  unfold services.timeInRange, in_window.
  rewrite andb_true_iff, !Z.ltb_lt. lia.
Qed.

Lemma has_dot_app (a b : string) : has_dot (a +:+ b) = has_dot a || has_dot b.
Proof.
  induction a as [|c a IH]; simpl; [done|].
  rewrite IH. by rewrite orb_assoc.
Qed.

Lemma string_of_uint_no_dot (d : Decimal.uint) :
  has_dot (NilEmpty.string_of_uint d) = false.
Proof. induction d; simpl; auto. Qed.

Lemma fmt_d_no_dot (z : Z) : has_dot (fmt_d z) = false.
Proof.
  unfold fmt_d. destruct (Z.to_int z) as [d|d]; simpl; apply string_of_uint_no_dot.
Qed.

Lemma append_cancel_l (a b c : string) : a +:+ b = a +:+ c → b = c.
Proof.
  induction a as [|x a IH]; simpl; [done|].
  intros Heq. injection Heq as Heq. by apply IH.
Qed.

Lemma append_assoc (a b c : string) : (a +:+ b) +:+ c = a +:+ (b +:+ c).
Proof.
  induction a as [|x a IH]; [done|].
  change (String x ((a +:+ b) +:+ c) = String x (a +:+ (b +:+ c))).
  by rewrite IH.
Qed.

Section Verification.
Context `{!confidential.Package}.

Lemma list_message_neq_entry_message (name : string) (t t' : Z) (entry : string) :
  services.list_message name t ≠ services.entry_message name t' entry.
Proof.
  unfold services.list_message, services.entry_message.
  intros Heq. apply append_cancel_l, append_cancel_l in Heq.
  apply (f_equal has_dot) in Heq.
  rewrite !has_dot_app, !fmt_d_no_dot in Heq. simpl in Heq. done.
Qed.

Lemma eqb_false_neq (a b : string) : negb (String.eqb a b) = true ↔ a ≠ b.
Proof.
  rewrite negb_true_iff. destruct (String.eqb_spec a b); split; congruence.
Qed.

Lemma List_checks (now : Z) (info : confidential.ConfidentialEntry) :
  checks_in_order (any_empty info)
    (λ p, services.DirectoryEntries.PublicKey p = confidential.PublicKey info)
    (λ p, in_window now (services.DirectoryEntries.Timestamp p))
    (crypto_List info)
    (λ p, services.DirectoryEntries_VerifySignature now p info).
Proof.
  unfold checks_in_order, any_empty, services.DirectoryEntries_VerifySignature.
  split.
  - intros Hempty p. apply no_key_empty in Hempty. by rewrite Hempty.
  - intros Hfull p.
    rewrite <- no_key_empty in Hfull. apply not_true_is_false in Hfull.
    rewrite Hfull. cbv zeta.
    destruct (negb (String.eqb _ _)) eqn:Hkey.
    + apply eqb_false_neq in Hkey. repeat split; intros; by try contradiction.
    + apply negb_false_iff, String.eqb_eq in Hkey.
      destruct (services.timeInRange _ _ _) eqn:Hin; simpl.
      * apply timeInRange_spec in Hin. repeat split; intros; by try contradiction.
      * assert (¬ in_window now (services.DirectoryEntries.Timestamp p)).
        { rewrite <- timeInRange_spec. congruence. }
        repeat split; intros; by try contradiction.
Qed.

Lemma Entry_checks (now : Z) (info : confidential.ConfidentialEntry) :
  checks_in_order (any_empty info)
    (λ p, services.DirectoryEntry.PublicKey p = confidential.PublicKey info)
    (λ p, in_window now (services.DirectoryEntry.Timestamp p))
    (crypto_Entry info)
    (λ p, services.DirectoryEntry_VerifySignature now p info).
Proof.
  unfold checks_in_order, any_empty, services.DirectoryEntry_VerifySignature.
  split.
  - intros Hempty p. apply no_key_empty in Hempty. by rewrite Hempty.
  - intros Hfull p.
    rewrite <- no_key_empty in Hfull. apply not_true_is_false in Hfull.
    rewrite Hfull. cbv zeta.
    destruct (negb (String.eqb _ _)) eqn:Hkey.
    + apply eqb_false_neq in Hkey. repeat split; intros; by try contradiction.
    + apply negb_false_iff, String.eqb_eq in Hkey.
      destruct (services.timeInRange _ _ _) eqn:Hin; simpl.
      * apply timeInRange_spec in Hin. repeat split; intros; by try contradiction.
      * assert (¬ in_window now (services.DirectoryEntry.Timestamp p)).
        { rewrite <- timeInRange_spec. congruence. }
        repeat split; intros; by try contradiction.
Qed.

Lemma managed_not_empty (info : confidential.ConfidentialEntry) :
  managed info ↔ ¬ any_empty info.
Proof.
  rewrite <- no_key_spec. unfold any_empty. rewrite <- no_key_empty.
  destruct (services.no_key info); split; congruence.
Qed.

End Verification.

(** ** The order of the checks (C5) *)

(** C5, as amended: both [VerifySignature] methods make their checks in
    this order.  A policy with an empty prefix, an empty algorithm or an
    empty public key (any one of the three) passes whatever the request
    holds; otherwise a claimed key that differs from the pinned one fails
    with "PublicKey not allowed", before the timestamp is looked at;
    otherwise a timestamp out of the window fails with "timestamp not in
    time range"; only then the signature is checked, over the canonical
    message of the method. *)
Theorem VerifySignature_checks_in_order `{!confidential.Package}
    (now : Z) (info : confidential.ConfidentialEntry) :
  checks_in_order (any_empty info)
    (λ p, services.DirectoryEntries.PublicKey p = confidential.PublicKey info)
    (λ p, in_window now (services.DirectoryEntries.Timestamp p))
    (crypto_List info)
    (λ p, services.DirectoryEntries_VerifySignature now p info)
  ∧ checks_in_order (any_empty info)
      (λ p, services.DirectoryEntry.PublicKey p = confidential.PublicKey info)
      (λ p, in_window now (services.DirectoryEntry.Timestamp p))
      (crypto_Entry info)
      (λ p, services.DirectoryEntry_VerifySignature now p info).
Proof.
  split.
  - apply List_checks.
  - apply Entry_checks.
Qed.

(** At the policy [secure] a request under another key, stamped two days
    ago, is refused for its key. *)
Lemma VerifySignature_checks_in_order_witness :
  services.DirectoryEntry_VerifySignature fixture.noon
    (fixture.signed_entry "secure" "v1" "default" "PK2" "" (fixture.noon - 2 * fixture.day))
    fixture.secure
  = services.PublicKey_not_allowed.
Proof.
  destruct (VerifySignature_checks_in_order fixture.noon fixture.secure) as [_ [_ Hentry]].
  apply Hentry.
  - intros [Hempty|[Hempty|Hempty]]; discriminate Hempty.
  - simpl. discriminate.
Defined.

(** C5 as the spec words it fails: with "unmanaged" read as no prefix, no
    algorithm and no key, the policy [no_algorithm] is managed, the request
    claims a key other than the pinned one, and verification succeeds. *)
Lemma spec_unmanaged_counterexample :
  let p := fixture.signed_entry "secure" "v1" "default" "PK2" "" fixture.noon in
  (¬ spec_unmanaged fixture.no_algorithm)
  ∧ services.DirectoryEntry.PublicKey p ≠ confidential.PublicKey fixture.no_algorithm
  ∧ services.DirectoryEntry_VerifySignature fixture.noon p fixture.no_algorithm = None
  ∧ (¬ checks_in_order (spec_unmanaged fixture.no_algorithm)
         (λ p, services.DirectoryEntry.PublicKey p
               = confidential.PublicKey fixture.no_algorithm)
         (λ p, in_window fixture.noon (services.DirectoryEntry.Timestamp p))
         (crypto_Entry fixture.no_algorithm)
         (λ p, services.DirectoryEntry_VerifySignature fixture.noon p fixture.no_algorithm)).
Proof.
  cbv zeta.
  assert (Hmanaged : ¬ spec_unmanaged fixture.no_algorithm).
  { intros (_ & _ & Hkey). discriminate Hkey. }
  assert (Hkey : services.DirectoryEntry.PublicKey
                   (fixture.signed_entry "secure" "v1" "default" "PK2" "" fixture.noon)
                 ≠ confidential.PublicKey fixture.no_algorithm).
  { simpl. discriminate. }
  repeat split; try done.
  intros [_ Hsteps].
  destruct (Hsteps Hmanaged
              (fixture.signed_entry "secure" "v1" "default" "PK2" "" fixture.noon))
    as [Hrefused _].
  specialize (Hrefused Hkey). discriminate Hrefused.
Qed.

(** ** The canonical messages (C6) *)

(** C6, as amended: past the first three checks, [List] requests are
    verified over [name.timestamp/1000000] (the timestamp in milliseconds,
    the division truncating) and [Add] and [Remove] requests over
    [name.timestamp.entry] (the timestamp in nanoseconds); for every name,
    timestamps and entry the two messages of that one name differ; across
    names they can be one message (the message to list [name.t] in the
    millisecond [m] is the message of a write to [name] at the timestamp
    [t] with the entry [m]), and a listing and a write that carry one
    signature then get one verdict. *)
Theorem canonical_messages `{!confidential.Package}
    (now : Z) (info : confidential.ConfidentialEntry) :
  managed info →
  (∀ p : services.DirectoryEntries.t,
     services.DirectoryEntries.PublicKey p = confidential.PublicKey info →
     in_window now (services.DirectoryEntries.Timestamp p) →
     services.DirectoryEntries_VerifySignature now p info
     = confidential.VerifySignature info (services.DirectoryEntries.PublicKey p)
         (services.DirectoryEntries.Name p +:+ "."
            +:+ fmt_d (services.DirectoryEntries.Timestamp p ÷ 1000000))
         (services.DirectoryEntries.Algorithm p) (services.DirectoryEntries.Signature p))
  ∧ (∀ p : services.DirectoryEntry.t,
       services.DirectoryEntry.PublicKey p = confidential.PublicKey info →
       in_window now (services.DirectoryEntry.Timestamp p) →
       services.DirectoryEntry_VerifySignature now p info
       = confidential.VerifySignature info (services.DirectoryEntry.PublicKey p)
           (services.DirectoryEntry.Name p +:+ "."
              +:+ fmt_d (services.DirectoryEntry.Timestamp p) +:+ "."
              +:+ services.DirectoryEntry.Entry p)
           (services.DirectoryEntry.Algorithm p) (services.DirectoryEntry.Signature p))
  ∧ (∀ (name : string) (t t' : Z) (entry : string),
       name +:+ "." +:+ fmt_d (t ÷ 1000000)
       ≠ name +:+ "." +:+ fmt_d t' +:+ "." +:+ entry)
  ∧ (∀ (name : string) (t t' : Z) (entry : string),
       services.list_message name t ≠ services.entry_message name t' entry)
  ∧ (∀ (name : string) (t t2 : Z),
       services.list_message (name +:+ "." +:+ fmt_d t) t2
       = services.entry_message name t (fmt_d (t2 ÷ 1000000)))
  ∧ (∀ (listing : services.DirectoryEntries.t) (write : services.DirectoryEntry.t),
       services.DirectoryEntries.Name listing
       = services.DirectoryEntry.Name write +:+ "."
           +:+ fmt_d (services.DirectoryEntry.Timestamp write) →
       services.DirectoryEntry.Entry write
       = fmt_d (services.DirectoryEntries.Timestamp listing ÷ 1000000) →
       services.DirectoryEntries.PublicKey listing = confidential.PublicKey info →
       services.DirectoryEntry.PublicKey write = confidential.PublicKey info →
       services.DirectoryEntries.Algorithm listing = services.DirectoryEntry.Algorithm write →
       services.DirectoryEntries.Signature listing = services.DirectoryEntry.Signature write →
       in_window now (services.DirectoryEntries.Timestamp listing) →
       in_window now (services.DirectoryEntry.Timestamp write) →
       services.DirectoryEntries_VerifySignature now listing info
       = services.DirectoryEntry_VerifySignature now write info).
Proof.
  intros Hmanaged. apply managed_not_empty in Hmanaged.
  destruct (List_checks now info) as [_ Hlist].
  destruct (Entry_checks now info) as [_ Hentry].
  assert (Hmeet : ∀ (name : string) (t t2 : Z),
            services.list_message (name +:+ "." +:+ fmt_d t) t2
            = services.entry_message name t (fmt_d (t2 ÷ 1000000))).
  { intros name t t2. unfold services.list_message, services.entry_message.
    by rewrite !append_assoc. }
  split; [|split; [|split; [|split; [|split]]]].
  - intros p Hkey Hin. by apply (Hlist Hmanaged p).
  - intros p Hkey Hin. by apply (Hentry Hmanaged p).
  - intros name t t' entry. apply (list_message_neq_entry_message name t t' entry).
  - apply list_message_neq_entry_message.
  - exact Hmeet.
  - intros listing write Hname Hvalue Hkey Hkey' Halgorithm Hsignature Hin Hin'.
    destruct (Hlist Hmanaged listing) as (_ & _ & Hl).
    destruct (Hentry Hmanaged write) as (_ & _ & He).
    rewrite (Hl Hkey Hin), (He Hkey' Hin').
    unfold crypto_List, crypto_Entry.
    pose proof (Hmeet (services.DirectoryEntry.Name write)
                  (services.DirectoryEntry.Timestamp write)
                  (services.DirectoryEntries.Timestamp listing)) as Hmessage.
    unfold services.list_message, services.entry_message in Hmessage.
    rewrite Hname, Hmessage, Hvalue, Hkey, Hkey', Halgorithm, Hsignature. done.
Qed.

(** The two messages of one name and one timestamp, and a signature over
    the [Add] message offered to [List]: it does not verify. *)
Lemma canonical_messages_witness :
  services.list_message "secure" 1700000000123456789 = "secure.1700000000123"
  ∧ services.entry_message "secure" 1700000000123456789 "v1"
    = "secure.1700000000123456789.v1"
  ∧ services.list_message "secure" 1700000000123456789
    ≠ services.entry_message "secure" 1700000000123456789 "v1"
  ∧ services.DirectoryEntries_VerifySignature 1700000000123456789
      (fixture.signed_list "secure" 0 "PK1"
         (fixture.sign "PK1" (services.entry_message "secure" 1700000000123456789 "v1"))
         1700000000123456789)
      fixture.secure
    = errors_New "invalid signature".
Proof.
  assert (Hmanaged : managed fixture.secure).
  { repeat split; discriminate. }
  destruct (canonical_messages 1700000000123456789 fixture.secure Hmanaged)
    as (Hlist & _ & _ & Hdiffer & _ & _).
  split; [reflexivity|]. split; [reflexivity|]. split; [apply Hdiffer|].
  rewrite Hlist.
  - reflexivity.
  - reflexivity.
  - unfold in_window, time.Hour, time.Minute, time.Second, time.Nanosecond. simpl. lia.
Defined.

(** C6 as the spec words it fails: a signature over the message of a
    write verifies for a listing.  The signature is made over the message
    of the write of [1700000000000] to [secure] at noon; [Add] accepts the
    write, and [List] accepts a listing of [secure.1700000000000000000] at
    noon that carries the same signature: both requests have one canonical
    message. *)
Lemma signature_crosses_formats_counterexample :
  fixture.crossing_signature
  = fixture.sign "PK1"
      (services.entry_message "secure" 1700000000000000000 "1700000000000")
  ∧ services.DirectoryEntry.Signature fixture.crossing_write = fixture.crossing_signature
  ∧ services.DirectoryEntries.Signature fixture.crossing_list = fixture.crossing_signature
  ∧ confidential.ReadOnly
      (confidential.GetConfidentialInfo "secure" "PK1") = true
  ∧ confidential.Confidential
      (confidential.GetConfidentialInfo "secure.1700000000000000000" "PK1") = true
  ∧ services.DirectoryEntry_VerifySignature fixture.noon fixture.crossing_write
      fixture.secure = None
  ∧ services.DirectoryEntries_VerifySignature fixture.noon fixture.crossing_list
      fixture.secure = None
  ∧ write_check fixture.noon fixture.crossing_write = None
  ∧ List_check fixture.noon fixture.crossing_list = None
  ∧ services.list_message "secure.1700000000000000000" 1700000000000000000
    = services.entry_message "secure" 1700000000000000000 "1700000000000".
Proof.
  repeat split; vm_compute; reflexivity.
Qed.

(** The two formats differ name by name; across names they can meet, a
    name being free to hold full stops. *)
Example messages_meet_across_names :
  services.list_message "a.1" 2000000 = services.entry_message "a" 1 "2".
Proof. reflexivity. Qed.

(** ** The timestamp window (C7) *)

Lemma error_messages_differ :
  services.PublicKey_not_allowed ≠ services.timestamp_not_in_time_range
  ∧ services.PublicKey_not_allowed ≠ None
  ∧ services.timestamp_not_in_time_range ≠ None.
Proof. repeat split; discriminate. Qed.

(** C7, as amended: for a policy with a prefix, an algorithm and a pinned
    key, a request whose claimed key is the pinned one and whose timestamp
    is not strictly between [now - 24h] and [now + 24h] fails with
    "timestamp not in time range", whatever the signature check would say;
    and every request with such a timestamp is refused, the ones that
    claim another key with "PublicKey not allowed". *)
Theorem timestamp_out_of_window `{!confidential.Package}
    (now : Z) (info : confidential.ConfidentialEntry) :
  managed info →
  (∀ p : services.DirectoryEntries.t,
     ¬ in_window now (services.DirectoryEntries.Timestamp p) →
     (services.DirectoryEntries.PublicKey p = confidential.PublicKey info →
      services.DirectoryEntries_VerifySignature now p info
      = services.timestamp_not_in_time_range)
     ∧ (services.DirectoryEntries.PublicKey p ≠ confidential.PublicKey info →
        services.DirectoryEntries_VerifySignature now p info
        = services.PublicKey_not_allowed)
     ∧ services.DirectoryEntries_VerifySignature now p info ≠ None)
  ∧ (∀ p : services.DirectoryEntry.t,
       ¬ in_window now (services.DirectoryEntry.Timestamp p) →
       (services.DirectoryEntry.PublicKey p = confidential.PublicKey info →
        services.DirectoryEntry_VerifySignature now p info
        = services.timestamp_not_in_time_range)
       ∧ (services.DirectoryEntry.PublicKey p ≠ confidential.PublicKey info →
          services.DirectoryEntry_VerifySignature now p info
          = services.PublicKey_not_allowed)
       ∧ services.DirectoryEntry_VerifySignature now p info ≠ None).
Proof.
  intros Hmanaged. apply managed_not_empty in Hmanaged.
  destruct (List_checks now info) as [_ Hlist].
  destruct (Entry_checks now info) as [_ Hentry].
  split.
  - intros p Hout.
    destruct (Hlist Hmanaged p) as (Hkey & Htime & _).
    split; [|split].
    + intros Heq. by apply Htime.
    + intros Hne. by apply Hkey.
    + destruct (decide (services.DirectoryEntries.PublicKey p = confidential.PublicKey info))
        as [Heq|Hne].
      * rewrite (Htime Heq Hout). discriminate.
      * rewrite (Hkey Hne). discriminate.
  - intros p Hout.
    destruct (Hentry Hmanaged p) as (Hkey & Htime & _).
    split; [|split].
    + intros Heq. by apply Htime.
    + intros Hne. by apply Hkey.
    + destruct (decide (services.DirectoryEntry.PublicKey p = confidential.PublicKey info))
        as [Heq|Hne].
      * rewrite (Htime Heq Hout). discriminate.
      * rewrite (Hkey Hne). discriminate.
Qed.

(** A request under the pinned key, rightly signed and stamped exactly 24
    hours ahead, is refused for its timestamp. *)
Lemma timestamp_out_of_window_witness :
  services.DirectoryEntry_VerifySignature fixture.noon
    (fixture.signed_entry "secure" "v1" "default" "PK1"
       (fixture.sign "PK1"
          (services.entry_message "secure" (fixture.noon + fixture.day) "v1"))
       (fixture.noon + fixture.day))
    fixture.secure
  = services.timestamp_not_in_time_range.
Proof.
  assert (Hmanaged : managed fixture.secure).
  { repeat split; discriminate. }
  destruct (timestamp_out_of_window fixture.noon fixture.secure Hmanaged) as [_ Hentry].
  apply Hentry.
  - unfold in_window, fixture.day. simpl. lia.
  - reflexivity.
Defined.

(** C7 as the spec words it fails: at the managed policy [secure], a
    request stamped two days ago that claims the key [PK2] fails, and not
    with the timestamp error: the key is checked first. *)
Lemma timestamp_error_counterexample :
  let p := fixture.signed_entry "secure" "v1" "default" "PK2"
             (fixture.sign "PK2"
                (services.entry_message "secure" (fixture.noon - 2 * fixture.day) "v1"))
             (fixture.noon - 2 * fixture.day) in
  managed fixture.secure
  ∧ (¬ in_window fixture.noon (services.DirectoryEntry.Timestamp p))
  ∧ services.DirectoryEntry_VerifySignature fixture.noon p fixture.secure
    = services.PublicKey_not_allowed
  ∧ services.DirectoryEntry_VerifySignature fixture.noon p fixture.secure
    ≠ services.timestamp_not_in_time_range.
Proof.
  cbv zeta. split; [|split; [|split]].
  - repeat split; discriminate.
  - unfold in_window, fixture.day. simpl. lia.
  - reflexivity.
  - discriminate.
Qed.

(** ** [List]: sampling (C8) and the response on a refusal (C2) *)

Lemma swap_Permutation (entries : list string) (i j : nat) :
  services.swap entries i j ≡ₚ entries.
Proof.
  unfold services.swap.
  destruct (entries !! i) as [x|] eqn:Hi; [|done].
  destruct (entries !! j) as [y|] eqn:Hj; [|done].
  by apply Permutation_insert_swap.
Qed.

Lemma shuffle_down_Permutation (draw : nat → nat) (i : nat) (entries : list string) :
  services.shuffle_down draw i entries ≡ₚ entries.
Proof.
  revert entries. induction i as [|i IH]; intros entries; simpl; [done|].
  rewrite IH. apply swap_Permutation.
Qed.

Lemma Shuffle_Permutation (draw : nat → nat) (n : nat) (entries : list string) :
  services.Shuffle draw n entries ≡ₚ entries.
Proof. apply shuffle_down_Permutation. Qed.

Section ListHandler.
Context {S N Message : Type}.
Context `{!soroban.Directory S} `{!p2p.P2P N Message services.DirectoryEntry.t}.
Context `{!confidential.Package}.

Lemma List_refused (draw : nat → nat) (now : Z) (ctx : internal.Context S N)
    (args : services.DirectoryEntries.t) (result : services.DirectoryEntriesResponse.t) :
  List_check now args ≠ None →
  services.List draw now ctx args result = result.
Proof.
  unfold List_check, services.List. intros Hcheck.
  destruct (internal.DirectoryFromContext ctx) as [directory|]; [|done].
  cbv zeta.
  destruct (if confidential.Confidential _ then _ else _); [done|].
  by destruct Hcheck.
Qed.

(** C8: on a [List] call that passes the policy check and fetches [n]
    entries, the response names the namespace; with [0 < limit < n] its
    entries are the first [limit] of a permutation of the fetched ones
    (exactly [limit] of them, each one fetched); otherwise they are the
    [n] fetched entries, as fetched. *)
Theorem List_limit (draw : nat → nat) (now : Z) (ctx : internal.Context S N)
    (directory : S) (args : services.DirectoryEntries.t)
    (result : services.DirectoryEntriesResponse.t) (entries : slice) :
  internal.DirectoryFromContext ctx = Some directory →
  List_check now args = None →
  soroban.List directory (services.DirectoryEntries.Name args) = (entries, None) →
  let limit := services.DirectoryEntries.Limit args in
  let response := services.List draw now ctx args result in
  services.DirectoryEntriesResponse.Name response = services.DirectoryEntries.Name args
  ∧ (0 < limit < len entries →
     (∃ shuffled : list string,
        shuffled ≡ₚ elements entries
        ∧ services.DirectoryEntriesResponse.Entries response
          = make_slice (take (Z.to_nat limit) shuffled))
     ∧ len (services.DirectoryEntriesResponse.Entries response) = limit
     ∧ ∀ x, x ∈ elements (services.DirectoryEntriesResponse.Entries response) →
            x ∈ elements entries)
  ∧ (¬ (0 < limit < len entries) →
     elements (services.DirectoryEntriesResponse.Entries response) = elements entries
     ∧ len (services.DirectoryEntriesResponse.Entries response) = len entries).
Proof.
  intros Hdir Hcheck Hfetch limit response.
  subst response. unfold services.List.
  rewrite Hdir. cbv zeta.
  unfold List_check in Hcheck. cbv zeta in Hcheck. rewrite Hcheck, Hfetch.
  fold limit.
  destruct ((0 <? limit) && (limit <? len entries)) eqn:Hlimit.
  - apply andb_true_iff in Hlimit as [Hpos Hlt].
    apply Z.ltb_lt in Hpos, Hlt.
    set (shuffled := services.Shuffle draw (Z.to_nat (len entries)) (elements entries)).
    assert (Hperm : shuffled ≡ₚ elements entries) by apply Shuffle_Permutation.
    simpl. split; [done|]. split; [|intros Hnot; lia].
    intros _. split; [by exists shuffled|]. split.
    + unfold len. simpl. rewrite length_take_le; [lia|].
      rewrite Hperm. unfold len in Hlt. lia.
    + intros x Hx. rewrite <- Hperm. simpl in Hx.
      apply elem_of_take in Hx as (i & Hi & _).
      by apply list_elem_of_lookup_2 in Hi.
  - assert (Hnot : ¬ (0 < limit < len entries)).
    { intros [Hpos Hlt]. apply Z.ltb_lt in Hpos, Hlt. by rewrite Hpos, Hlt in Hlimit. }
    simpl. split; [done|]. split; [intros Hin; contradiction|].
    intros _. by destruct entries.
Qed.

End ListHandler.

(** Five values under [pairing], two asked for: two of the five come back. *)
Lemma List_limit_witness :
  services.List (λ i, 3 * i)%nat fixture.noon
    (fixture.context_of (fixture.holding "pairing" ["a"; "b"; "c"; "d"; "e"]))
    (fixture.signed_list "pairing" 2 "" "" 0) services.DirectoryEntriesResponse.zero
  = {| services.DirectoryEntriesResponse.Name := "pairing";
       services.DirectoryEntriesResponse.Entries := make_slice ["e"; "d"] |}
  ∧ len (make_slice ["e"; "d"]) = 2
  ∧ "e" ∈ ["a"; "b"; "c"; "d"; "e"] ∧ "d" ∈ ["a"; "b"; "c"; "d"; "e"].
Proof.
  pose proof (List_limit (λ i, 3 * i)%nat fixture.noon
                (fixture.context_of (fixture.holding "pairing" ["a"; "b"; "c"; "d"; "e"]))
                (fixture.holding "pairing" ["a"; "b"; "c"; "d"; "e"])
                (fixture.signed_list "pairing" 2 "" "" 0)
                services.DirectoryEntriesResponse.zero
                (make_slice ["a"; "b"; "c"; "d"; "e"])
                eq_refl eq_refl eq_refl) as Hlimit.
  cbv zeta in Hlimit. destruct Hlimit as (_ & Hsample & _).
  assert (Hasked : 0 < services.DirectoryEntries.Limit (fixture.signed_list "pairing" 2 "" "" 0)
                   < len (make_slice ["a"; "b"; "c"; "d"; "e"])).
  { split; reflexivity. }
  destruct (Hsample Hasked) as (_ & Hlen & Hmember).
  split; [reflexivity|]. split; [exact Hlen|].
  split; apply Hmember, list_elem_of_In; vm_compute; auto.
Defined.

Section ListResponse.
Context {S N Message : Type}.
Context `{!soroban.Directory S} `{!p2p.P2P N Message services.DirectoryEntry.t}.
Context `{!confidential.Package}.

(** When [List] passes the check and the fetch succeeds, the entries of the
    response are not the nil slice: a nil result of the store is replaced
    by an empty slice. *)
Lemma List_entries_not_nil (draw : nat → nat) (now : Z) (ctx : internal.Context S N)
    (directory : S) (args : services.DirectoryEntries.t)
    (result : services.DirectoryEntriesResponse.t) (entries : slice) :
  internal.DirectoryFromContext ctx = Some directory →
  List_check now args = None →
  soroban.List directory (services.DirectoryEntries.Name args) = (entries, None) →
  services.DirectoryEntriesResponse.Entries (services.List draw now ctx args result)
  ≠ nil_slice.
Proof.
  intros Hdir Hcheck Hfetch. unfold services.List.
  rewrite Hdir. cbv zeta.
  unfold List_check in Hcheck. cbv zeta in Hcheck. rewrite Hcheck, Hfetch.
  destruct ((0 <? _) && _); simpl; [done|].
  by destruct entries.
Qed.

(** A failing fetch leaves the response alone as well. *)
Lemma List_store_error (draw : nat → nat) (now : Z) (ctx : internal.Context S N)
    (directory : S) (args : services.DirectoryEntries.t)
    (result : services.DirectoryEntriesResponse.t) (entries : slice) (e : string) :
  internal.DirectoryFromContext ctx = Some directory →
  soroban.List directory (services.DirectoryEntries.Name args) = (entries, Some e) →
  services.List draw now ctx args result = result.
Proof.
  intros Hdir Hfetch. unfold services.List.
  rewrite Hdir. cbv zeta. rewrite Hfetch.
  by destruct (if confidential.Confidential _ then _ else _).
Qed.

End ListResponse.

(** C2, at a failing input: the namespace [secure] is confidential and
    holds two values.  A [List] request with no signature gets back the
    response as the server allocated it, whose entries are the nil slice
    (JSON [null]) and not an empty one; with the right signature the
    response holds the two values; and on an empty namespace the handler
    does turn the nil slice of the store into an empty one. *)
Theorem List_refused_entries_nil :
  let stored := fixture.holding "secure" ["s1"; "s2"] in
  let unsigned := fixture.signed_list "secure" 0 "PK1" "" fixture.noon in
  let signed := fixture.signed_list "secure" 0 "PK1"
                  (fixture.sign "PK1" (services.list_message "secure" fixture.noon))
                  fixture.noon in
  let draw := λ i : nat, i in
  confidential.Confidential (confidential.GetConfidentialInfo "secure" "PK1") = true
  ∧ soroban.List stored "secure" = (make_slice ["s1"; "s2"], None)
  ∧ services.List draw fixture.noon (fixture.context_of stored) unsigned
      services.DirectoryEntriesResponse.zero
    = services.DirectoryEntriesResponse.zero
  ∧ services.DirectoryEntriesResponse.Entries
      (services.List draw fixture.noon (fixture.context_of stored) unsigned
         services.DirectoryEntriesResponse.zero)
    = nil_slice
  ∧ services.List draw fixture.noon (fixture.context_of stored) signed
      services.DirectoryEntriesResponse.zero
    = {| services.DirectoryEntriesResponse.Name := "secure";
         services.DirectoryEntriesResponse.Entries := make_slice ["s1"; "s2"] |}
  ∧ soroban.List fixture.empty "pairing" = (nil_slice, None)
  ∧ services.List draw fixture.noon (fixture.context_of fixture.empty)
      (fixture.signed_list "pairing" 0 "" "" 0) services.DirectoryEntriesResponse.zero
    = {| services.DirectoryEntriesResponse.Name := "pairing";
         services.DirectoryEntriesResponse.Entries := make_slice [] |}.
Proof.
  cbv zeta.
  assert (Hrefused :
            List_check fixture.noon (fixture.signed_list "secure" 0 "PK1" "" fixture.noon)
            ≠ None).
  { vm_compute. discriminate. }
  split; [reflexivity|]. split; [reflexivity|].
  split; [by apply List_refused|].
  split; [by rewrite List_refused|].
  split; [reflexivity|]. split; reflexivity.
Qed.

(** ** [Add] and [Remove] behind a read-only policy (C1) *)

Section Writes.
Context {S N Message : Type}.
Context `{!soroban.Directory S} `{!p2p.P2P N Message services.DirectoryEntry.t}.
Context `{!confidential.Package}.

(** A refused [Add] changes nothing and answers [error]. *)
Lemma Add_refused (now : Z) (ctx : internal.Context S N) (directory : S) (p2p : N)
    (args : services.DirectoryEntry.t) (result : services.Response.t) :
  internal.DirectoryFromContext ctx = Some directory →
  internal.P2PFromContext ctx = Some p2p →
  write_check now args ≠ None →
  services.Add now ctx args result = (ctx, {| services.Response.Status := "error" |}).
Proof.
  intros Hdir Hp2p Hcheck. unfold services.Add.
  rewrite Hdir, Hp2p. cbv zeta.
  unfold write_check in Hcheck. cbv zeta in Hcheck.
  destruct (if confidential.ReadOnly _ then _ else _); [done|].
  by destruct Hcheck.
Qed.

(** A refused [Remove] changes nothing either, and leaves the response as
    it was handed in: no status is written. *)
Lemma Remove_refused (now : Z) (ctx : internal.Context S N)
    (args : services.DirectoryEntry.t) (result : services.Response.t) :
  write_check now args ≠ None →
  services.Remove now ctx args result = (ctx, result).
Proof.
  intros Hcheck. unfold services.Remove.
  destruct (internal.DirectoryFromContext ctx) as [directory|]; [|done].
  cbv zeta.
  unfold write_check in Hcheck. cbv zeta in Hcheck.
  destruct (if confidential.ReadOnly _ then _ else _); [done|].
  by destruct Hcheck.
Qed.

Lemma Remove_rev0_refused (now : Z) (ctx : internal.Context S N)
    (args : services.DirectoryEntry.t) (result : services.Response.t) :
  write_check now args ≠ None →
  services_rev0.Remove now ctx args result = (ctx, result).
Proof.
  intros Hcheck. unfold services_rev0.Remove.
  destruct (internal.DirectoryFromContext ctx) as [directory|]; [|done].
  cbv zeta.
  unfold write_check in Hcheck. cbv zeta in Hcheck.
  destruct (if confidential.ReadOnly _ then _ else _); [done|].
  by destruct Hcheck.
Qed.

Lemma Add_rev0_refused (now : Z) (ctx : internal.Context S N) (directory : S)
    (args : services.DirectoryEntry.t) (result : services.Response.t) :
  internal.DirectoryFromContext ctx = Some directory →
  write_check now args ≠ None →
  services_rev0.Add now ctx args result
  = (ctx, {| services.Response.Status := "error" |}).
Proof.
  intros Hdir Hcheck. unfold services_rev0.Add.
  rewrite Hdir. cbv zeta.
  unfold write_check in Hcheck. cbv zeta in Hcheck.
  destruct (if confidential.ReadOnly _ then _ else _); [done|].
  by destruct Hcheck.
Qed.

(** An [Add] that passes the check is applied to the store, with the TTL of
    its mode; the status tells whether the store took it. *)
Lemma Add_verified (now : Z) (ctx : internal.Context S N) (directory : S) (p2p : N)
    (args : services.DirectoryEntry.t) (result : services.Response.t) :
  internal.DirectoryFromContext ctx = Some directory →
  internal.P2PFromContext ctx = Some p2p →
  write_check now args = None →
  let applied :=
    soroban.Add directory (services.DirectoryEntry.Name args)
      (services.DirectoryEntry.Entry args)
      (soroban.TimeToLive directory (services.DirectoryEntry.Mode args)) in
  internal.DirectoryFromContext (fst (services.Add now ctx args result))
  = Some (fst applied)
  ∧ services.Response.Status (snd (services.Add now ctx args result))
    = match snd applied with None => "success" | Some _ => "error" end.
Proof.
  intros Hdir Hp2p Hcheck applied. subst applied. unfold services.Add.
  rewrite Hdir, Hp2p. cbv zeta.
  unfold write_check in Hcheck. cbv zeta in Hcheck. rewrite Hcheck.
  unfold services.addToDirectory.
  destruct (soroban.Add _ _ _ _) as [directory' [e|]]; simpl; [done|].
  by destruct (p2p.PublishJson _ _ _).
Qed.

(** A [Remove] that passes the check is applied to the store. *)
Lemma Remove_verified (now : Z) (ctx : internal.Context S N) (directory : S) (p2p : N)
    (args : services.DirectoryEntry.t) (result : services.Response.t) :
  internal.DirectoryFromContext ctx = Some directory →
  internal.P2PFromContext ctx = Some p2p →
  write_check now args = None →
  let applied :=
    soroban.Remove directory (services.DirectoryEntry.Name args)
      (services.DirectoryEntry.Entry args) in
  internal.DirectoryFromContext (fst (services.Remove now ctx args result))
  = Some (fst applied)
  ∧ services.Response.Status (snd (services.Remove now ctx args result))
    = match snd applied with None => "success" | Some _ => "error" end.
Proof.
  intros Hdir Hp2p Hcheck applied. subst applied. unfold services.Remove.
  rewrite Hdir. cbv zeta.
  unfold write_check in Hcheck. cbv zeta in Hcheck. rewrite Hcheck, Hp2p.
  unfold services.removeFromDirectory.
  destruct (soroban.Remove _ _ _) as [directory' [e|]]; simpl;
    by destruct (p2p.PublishJson _ _ _).
Qed.

End Writes.

(** C1, at a failing input: the namespace [secure] is read-only with the
    pinned key [PK1] and holds [v1].  A [Remove] of [v1] signed under
    another key leaves the store as it is, and leaves the response as the
    server allocated it: its status is empty, not [error].  [Add] with the
    same request does answer [error], in both revisions of the handlers;
    and the same writes signed under [PK1] are applied. *)
Theorem Remove_refused_status :
  let stored := fixture.holding "secure" ["v1"] in
  let forged := fixture.signed_entry "secure" "v1" "default" "PK2"
                  (fixture.sign "PK2" (services.entry_message "secure" fixture.noon "v1"))
                  fixture.noon in
  let signed := fixture.signed_entry "secure" "v1" "default" "PK1"
                  (fixture.sign "PK1" (services.entry_message "secure" fixture.noon "v1"))
                  fixture.noon in
  confidential.ReadOnly (confidential.GetConfidentialInfo "secure" "PK2") = true
  ∧ services.Remove fixture.noon (fixture.context_of stored) forged services.Response.zero
    = (fixture.context_of stored, {| services.Response.Status := "" |})
  ∧ services_rev0.Remove fixture.noon (fixture.context_of stored) forged
      services.Response.zero
    = (fixture.context_of stored, {| services.Response.Status := "" |})
  ∧ services.Add fixture.noon (fixture.context_of stored) forged services.Response.zero
    = (fixture.context_of stored, {| services.Response.Status := "error" |})
  ∧ services_rev0.Add fixture.noon (fixture.context_of stored) forged
      services.Response.zero
    = (fixture.context_of stored, {| services.Response.Status := "error" |})
  ∧ snd (services.Remove fixture.noon (fixture.context_of stored) signed
           services.Response.zero)
    = {| services.Response.Status := "success" |}
  ∧ fixture.listed
      (fst (services.Remove fixture.noon (fixture.context_of stored) signed
              services.Response.zero)) "secure"
    = []
  ∧ fixture.listed
      (fst (services.Add fixture.noon (fixture.context_of stored) signed
              services.Response.zero)) "secure"
    = ["v1"; "v1"].
Proof.
  cbv zeta.
  assert (Hrefused :
            write_check fixture.noon
              (fixture.signed_entry "secure" "v1" "default" "PK2"
                 (fixture.sign "PK2" (services.entry_message "secure" fixture.noon "v1"))
                 fixture.noon) ≠ None).
  { vm_compute. discriminate. }
  split; [reflexivity|].
  split; [by apply Remove_refused|].
  split; [by apply Remove_rev0_refused|].
  split; [by apply (Add_refused _ _ (fixture.holding "secure" ["v1"]) [])|].
  split; [by apply (Add_rev0_refused _ _ (fixture.holding "secure" ["v1"]))|].
  split; [reflexivity|]. split; vm_compute; reflexivity.
Qed.

(** ** The gossip loop *)

Section Loop.
Context {S N Message : Type}.
Context `{!soroban.Directory S} `{!p2p.P2P N Message services.DirectoryEntry.t}.

Implicit Types (st : services.loop (S := S) (N := N)).
Implicit Types (ev : services.event (Message := Message)).
Implicit Types (events : list (Z * services.event (Message := Message))).

(** What an iteration does to the two liveness variables: a heartbeat sets
    them, nothing else touches them. *)
Lemma iteration_liveness (now : Z) st ev :
  services.timeoutDelay (snd (services.iteration now st ev))
  = (if heartbeat_event ev then 3 * time.Minute else services.timeoutDelay st)
  ∧ services.lastHeartbeatTimestamp (snd (services.iteration now st ev))
    = (if heartbeat_event ev then now else services.lastHeartbeatTimestamp st).
Proof.
  destruct ev as [message| |]; simpl; unfold is_heartbeat.
  - destruct (p2p.ParsePayload message) as [args [e|]]; simpl; [done|].
    destruct (String.eqb _ _); simpl; [done|].
    by destruct (if String.eqb _ _ then _ else _).
  - destruct (_ <? _); simpl; [done|].
    by destruct (p2p.PublishJson _ _ _).
  - done.
Qed.

(** The arrival of a message never leaves the loop. *)
Lemma iteration_OnMessage (now : Z) st (message : Message) :
  fst (services.iteration now st (services.OnMessage message)) = services.Continue.
Proof.
  simpl. destruct (p2p.ParsePayload message) as [args [e|]]; simpl; [done|].
  destruct (String.eqb _ _); simpl; [done|].
  by destruct (if String.eqb _ _ then _ else _).
Qed.

Lemma run_cons (now : Z) st ev events :
  services.run st ((now, ev) :: events)
  = match services.iteration now st ev with
    | (services.Continue, st') => services.run st' events
    | stopped => stopped
    end.
Proof. done. Qed.

Lemma run_app st events more :
  services.run st (events ++ more)%list
  = match services.run st events with
    | (services.Continue, st') => services.run st' more
    | stopped => stopped
    end.
Proof.
  revert st. induction events as [|[now ev] events IH]; intros st.
  - simpl. by destruct (services.run st more) as [[]].
  - rewrite <- app_comm_cons, !run_cons.
    destruct (services.iteration now st ev) as [[| |] st1]; [apply IH|done|done].
Qed.

(** However the loop goes on, the window is the one it had or 3 minutes. *)
Lemma run_delay st events :
  services.timeoutDelay (snd (services.run st events)) = services.timeoutDelay st
  ∨ services.timeoutDelay (snd (services.run st events)) = 3 * time.Minute.
Proof.
  revert st. induction events as [|[now ev] events IH]; intros st; [by left|].
  rewrite run_cons.
  destruct (iteration_liveness now st ev) as [Hdelay _].
  destruct (services.iteration now st ev) as [[| |] st1]; simpl in Hdelay.
  - destruct (IH st1) as [Hsame|Hshort]; [|by right].
    rewrite Hsame, Hdelay. destruct (heartbeat_event ev); [by right|by left].
  - simpl. rewrite Hdelay. destruct (heartbeat_event ev); [by right|by left].
  - simpl. rewrite Hdelay. destruct (heartbeat_event ev); [by right|by left].
Qed.

(** Along a run that goes on, with a clock that does not go back: the last
    heartbeat is no later than the last message, and the window is 3
    minutes once a heartbeat came. *)
Lemma run_liveness events : ∀ st since last st',
  services.lastHeartbeatTimestamp st ≤ last →
  last ≤ since →
  clock_ok since events →
  services.run st events = (services.Continue, st') →
  services.lastHeartbeatTimestamp st' ≤ last_message last events
  ∧ services.timeoutDelay st'
    = (if heartbeat_seen events then 3 * time.Minute else services.timeoutDelay st).
Proof.
  induction events as [|[now ev] events IH]; intros st since last st' Hlast Hsince Hclock Hrun.
  - simpl in Hrun. injection Hrun as <-. by simpl.
  - destruct Hclock as [Hnow Hclock]. rewrite run_cons in Hrun.
    destruct (iteration_liveness now st ev) as [Hdelay Hbeat].
    destruct (services.iteration now st ev) as [[| |] st1] eqn:Hstep; [|done|done].
    simpl in Hdelay, Hbeat.
    destruct ev as [message| |].
    + destruct (IH st1 now now st') as [Hle Hwindow]; try done.
      { rewrite Hbeat. destruct (heartbeat_event _); lia. }
      split; [exact Hle|].
      rewrite Hwindow, Hdelay. unfold heartbeat_seen. simpl.
      destruct (is_heartbeat message); simpl; [|done].
      by destruct (existsb _ events).
    + destruct (IH st1 now last st') as [Hle Hwindow]; try done.
      { by rewrite Hbeat. }
      { lia. }
      split; [exact Hle|]. by rewrite Hwindow, Hdelay.
    + simpl in Hstep. discriminate Hstep.
Qed.

(** After a run that goes on, the last heartbeat of the loop is the clock
    reading of the last heartbeat that came. *)
Lemma run_last_heartbeat events : ∀ st st',
  services.run st events = (services.Continue, st') →
  services.lastHeartbeatTimestamp st'
  = last_heartbeat (services.lastHeartbeatTimestamp st) events.
Proof.
  induction events as [|[now ev] events IH]; intros st st' Hrun.
  - simpl in Hrun. by injection Hrun as <-.
  - rewrite run_cons in Hrun.
    destruct (iteration_liveness now st ev) as [_ Hbeat].
    destruct (services.iteration now st ev) as [[| |] st1]; [|done|done].
    simpl in Hbeat. cbn [last_heartbeat]. rewrite <- Hbeat. by apply IH.
Qed.

(** The loop does to its window and its last heartbeat, and ends, as the
    spec's liveness protocol says. *)
Lemma run_refines_spec events : ∀ st,
  fst (services.run st events)
  = fst (spec_liveness (services.timeoutDelay st) (services.lastHeartbeatTimestamp st) events)
  ∧ (services.timeoutDelay (snd (services.run st events)),
     services.lastHeartbeatTimestamp (snd (services.run st events)))
    = snd (spec_liveness (services.timeoutDelay st) (services.lastHeartbeatTimestamp st)
             events).
Proof.
  induction events as [|[now ev] events IH]; intros st; [done|].
  rewrite run_cons.
  destruct (iteration_liveness now st ev) as [Hdelay Hbeat].
  destruct ev as [message| |]; cbn [spec_liveness heartbeat_event] in *.
  - pose proof (iteration_OnMessage now st message) as Hgo.
    destruct (services.iteration now st (services.OnMessage message)) as [c st1].
    simpl in Hgo, Hdelay, Hbeat. subst c.
    destruct (IH st1) as [Hend Hstate]. rewrite Hend, Hstate, Hdelay, Hbeat.
    by destruct (is_heartbeat message).
  - clear Hdelay Hbeat. simpl. unfold time.Since.
    destruct (services.timeoutDelay st <? now - services.lastHeartbeatTimestamp st);
      [done|].
    destruct (p2p.PublishJson _ _ _) as [p2P' e].
    by destruct (IH {| services.directory := services.directory st;
                       services.p2P := p2P';
                       services.timeoutDelay := services.timeoutDelay st;
                       services.lastHeartbeatTimestamp :=
                         services.lastHeartbeatTimestamp st |}) as [-> ->].
  - done.
Qed.

End Loop.

(** ** The timeout window (C4) *)

Section Window.
Context {S N Message : Type}.
Context `{!soroban.Directory S} `{!p2p.P2P N Message services.DirectoryEntry.t}.

(** C4: the loop starts with a window of 15 minutes and the start as its
    last heartbeat, and on every sequence of events it ends, and leaves
    its window and its last heartbeat, as the spec's liveness protocol
    says.  After any run of events that leaves it going, under a clock
    that does not go back: the window is 3 minutes if a heartbeat came and
    15 minutes if none did; the last heartbeat is the clock reading of the
    last heartbeat that came (the start if none did), which is no later
    than the last message; whatever comes next, the window never gets
    larger; a message never ends the loop; a tick ends the process, with
    the code 0, exactly when more than the window has passed since the
    last heartbeat, and otherwise publishes a heartbeat and goes on; so a
    tick at a clock reading that is further than the window from the last
    message (from the start when no message came) ends the process. *)
Theorem timeout_window (now0 : Z) (directory : S) (p2P : N)
    (events : list (Z * services.event (Message := Message)))
    (st : services.loop (S := S) (N := N)) :
  clock_ok now0 events →
  services.run (services.start_loop now0 directory p2P) events = (services.Continue, st) →
  services.timeoutDelay (services.start_loop now0 directory p2P) = 15 * time.Minute
  ∧ services.lastHeartbeatTimestamp (services.start_loop now0 directory p2P) = now0
  ∧ (∀ any : list (Z * services.event (Message := Message)),
       let ended := services.run (services.start_loop now0 directory p2P) any in
       fst ended = fst (spec_liveness (15 * time.Minute) now0 any)
       ∧ (services.timeoutDelay (snd ended), services.lastHeartbeatTimestamp (snd ended))
         = snd (spec_liveness (15 * time.Minute) now0 any))
  ∧ services.timeoutDelay st
    = (if heartbeat_seen events then 3 * time.Minute else 15 * time.Minute)
  ∧ services.lastHeartbeatTimestamp st = last_heartbeat now0 events
  ∧ last_heartbeat now0 events ≤ last_message now0 events
  ∧ (∀ more, services.timeoutDelay (snd (services.run st more)) ≤ services.timeoutDelay st)
  ∧ (∀ (now : Z) (message : Message),
       fst (services.run (services.start_loop now0 directory p2P)
              (events ++ [(now, services.OnMessage message)])%list)
       = services.Continue)
  ∧ (∀ now : Z,
       services.run (services.start_loop now0 directory p2P)
         (events ++ [(now, services.After30s)])%list
       = if services.timeoutDelay st <? now - last_heartbeat now0 events
         then (services.Exit 0, st)
         else (services.Continue,
               {| services.directory := services.directory st;
                  services.p2P :=
                    fst (p2p.PublishJson (services.p2P st) "Directory.Add"
                           (services.heartbeat now));
                  services.timeoutDelay := services.timeoutDelay st;
                  services.lastHeartbeatTimestamp := services.lastHeartbeatTimestamp st |}))
  ∧ (∀ now : Z,
       services.timeoutDelay st < now - last_message now0 events →
       services.run (services.start_loop now0 directory p2P)
         (events ++ [(now, services.After30s)])%list
       = (services.Exit 0, st)).
Proof.
  intros Hclock Hrun.
  destruct (run_liveness events (services.start_loop now0 directory p2P) now0 now0 st)
    as [Hbeat Hwindow]; simpl; try done.
  simpl in Hwindow.
  pose proof (run_last_heartbeat events _ _ Hrun) as Hlast. simpl in Hlast.
  split; [done|]. split; [done|].
  split; [intros any; apply (run_refines_spec any (services.start_loop now0 directory p2P))|].
  split; [done|]. split; [done|]. split; [by rewrite <- Hlast|].
  split; [|split; [|split]].
  - intros more. destruct (run_delay st more) as [Hsame|Hshort].
    + by rewrite Hsame.
    + rewrite Hshort, Hwindow. destruct (heartbeat_seen events); [done|].
      unfold time.Minute, time.Second, time.Nanosecond. lia.
  - intros now message. rewrite run_app, Hrun, run_cons.
    pose proof (iteration_OnMessage now st message) as Hgo.
    destruct (services.iteration now st (services.OnMessage message)) as [c st1].
    simpl in Hgo. by subst c.
  - intros now. rewrite run_app, Hrun, <- Hlast. simpl. unfold time.Since.
    destruct (services.timeoutDelay st <? now - services.lastHeartbeatTimestamp st);
      [done|].
    by destruct (p2p.PublishJson _ _ _).
  - intros now Hquiet. rewrite run_app, Hrun. simpl.
    unfold time.Since.
    assert (Hlate : services.timeoutDelay st < now - services.lastHeartbeatTimestamp st)
      by lia.
    apply Z.ltb_lt in Hlate. by rewrite Hlate.
Qed.

End Window.

(** After the run [quiet_run] the window is 3 minutes, the last heartbeat
    came one minute after the start and the last message two minutes after
    it: a tick more than five minutes after the start ends the process,
    and a tick four minutes after the start, three minutes after the
    heartbeat, publishes a heartbeat and goes on. *)
Lemma timeout_window_witness :
  services.run fixture.started
    (fixture.quiet_run ++ [(fixture.noon + 5 * time.Minute + 1, services.After30s)])%list
  = (services.Exit 0, snd (services.run fixture.started fixture.quiet_run))
  ∧ services.timeoutDelay (snd (services.run fixture.started fixture.quiet_run))
    = 3 * time.Minute
  ∧ services.lastHeartbeatTimestamp (snd (services.run fixture.started fixture.quiet_run))
    = fixture.noon + 1 * time.Minute
  ∧ fst (services.run fixture.started
           (fixture.quiet_run ++ [(fixture.noon + 4 * time.Minute, services.After30s)])%list)
    = services.Continue
  ∧ fst (services.run fixture.started
           (fixture.quiet_run ++ [(fixture.noon + 4 * time.Minute + 1, services.After30s)])%list)
    = services.Exit 0.
Proof.
  assert (Hclock : clock_ok fixture.noon fixture.quiet_run).
  { vm_compute. repeat split; discriminate. }
  assert (Hrun : services.run (services.start_loop fixture.noon fixture.empty [])
                   fixture.quiet_run
                 = (services.Continue,
                    snd (services.run fixture.started fixture.quiet_run))).
  { vm_compute. reflexivity. }
  destruct (timeout_window fixture.noon fixture.empty [] fixture.quiet_run
              (snd (services.run fixture.started fixture.quiet_run))
              Hclock Hrun)
    as (_ & _ & _ & Hwindow & Hlast & _ & _ & _ & Htick & Hquiet).
  split; [|split; [|split; [|split]]].
  - apply Hquiet. vm_compute. reflexivity.
  - exact Hwindow.
  - etransitivity; [exact Hlast|]. vm_compute. reflexivity.
  - unfold fixture.started. rewrite Htick. vm_compute. reflexivity.
  - unfold fixture.started. rewrite Htick. vm_compute. reflexivity.
Defined.

(** ** Inbound writes (C3) and heartbeats (C9, C10) *)

Section Inbound.
Context {S N Message : Type}.
Context `{!soroban.Directory S} `{!p2p.P2P N Message services.DirectoryEntry.t}.

Lemma heartbeat_name (args : services.DirectoryEntry.t) :
  String.eqb (services.DirectoryEntry.Name args) "p2p.heartbeat" = false
  ↔ services.DirectoryEntry.Name args ≠ "p2p.heartbeat".
Proof.
  destruct (String.eqb_spec (services.DirectoryEntry.Name args) "p2p.heartbeat");
    split; congruence.
Qed.

(** C3: a message whose payload parses and is not a heartbeat is applied to
    the directory as it comes: under the context [Directory.Add] the
    directory's [Add] of the name and the entry with the TTL of the mode,
    under [Directory.Remove] its [Remove] of the name and the entry.  The
    loop is given no policy table and no signature check: nothing of
    package confidential is among the things this statement, or the loop,
    depends on. *)
Theorem gossip_applied_directly (now : Z) (st : services.loop (S := S) (N := N))
    (message : Message) (args : services.DirectoryEntry.t) :
  p2p.ParsePayload message = (args, None) →
  services.DirectoryEntry.Name args ≠ "p2p.heartbeat" →
  (p2p.Context message = "Directory.Add" →
   services.iteration now st (services.OnMessage message)
   = (services.Continue,
      {| services.directory :=
           fst (soroban.Add (services.directory st)
                  (services.DirectoryEntry.Name args) (services.DirectoryEntry.Entry args)
                  (soroban.TimeToLive (services.directory st)
                     (services.DirectoryEntry.Mode args)));
         services.p2P := services.p2P st;
         services.timeoutDelay := services.timeoutDelay st;
         services.lastHeartbeatTimestamp := services.lastHeartbeatTimestamp st |}))
  ∧ (p2p.Context message = "Directory.Remove" →
     services.iteration now st (services.OnMessage message)
     = (services.Continue,
        {| services.directory :=
             fst (soroban.Remove (services.directory st)
                    (services.DirectoryEntry.Name args)
                    (services.DirectoryEntry.Entry args));
           services.p2P := services.p2P st;
           services.timeoutDelay := services.timeoutDelay st;
           services.lastHeartbeatTimestamp := services.lastHeartbeatTimestamp st |})).
Proof.
  intros Hparse Hname. apply heartbeat_name in Hname.
  split; intros Hcontext; simpl; rewrite Hparse, Hname, Hcontext; simpl.
  - by destruct (soroban.Add _ _ _ _).
  - by destruct (soroban.Remove _ _ _).
Qed.

(** C9, as amended: the loop tells a heartbeat by the name of the parsed
    payload alone.  A payload named [p2p.heartbeat] sets the last heartbeat
    to now and the window to 3 minutes under any context; a payload with
    another name leaves both as they were under any context, the context
    [p2p.heartbeat] included; a payload that does not parse leaves the
    loop as it was. *)
Theorem heartbeat_by_payload_name (now : Z) (st : services.loop (S := S) (N := N))
    (message : Message) :
  let after := snd (services.iteration now st (services.OnMessage message)) in
  (∀ args, p2p.ParsePayload message = (args, None) →
     services.DirectoryEntry.Name args = "p2p.heartbeat" →
     services.lastHeartbeatTimestamp after = now
     ∧ services.timeoutDelay after = 3 * time.Minute)
  ∧ (∀ args, p2p.ParsePayload message = (args, None) →
       services.DirectoryEntry.Name args ≠ "p2p.heartbeat" →
       services.lastHeartbeatTimestamp after = services.lastHeartbeatTimestamp st
       ∧ services.timeoutDelay after = services.timeoutDelay st)
  ∧ (∀ args e, p2p.ParsePayload message = (args, Some e) → after = st).
Proof.
  cbv zeta.
  destruct (iteration_liveness now st (services.OnMessage message)) as [Hdelay Hbeat].
  simpl heartbeat_event in Hdelay, Hbeat. unfold is_heartbeat in Hdelay, Hbeat.
  split; [|split].
  - intros args Hparse Hname. rewrite Hparse, Hname in Hdelay, Hbeat. by simpl in *.
  - intros args Hparse Hname. apply heartbeat_name in Hname.
    rewrite Hparse, Hname in Hdelay, Hbeat. done.
  - intros args e Hparse. simpl. by rewrite Hparse.
Qed.

(** C10: a message whose parsed payload is named [p2p.heartbeat] only sets
    the last heartbeat and the window: the directory and the session are
    the ones before, whatever the context of the message.  And the
    heartbeat the loop publishes at a tick that does not end the process
    goes out under the context [Directory.Add] with that name. *)
Theorem heartbeat_not_stored (now : Z) (st : services.loop (S := S) (N := N)) :
  (∀ (message : Message) (args : services.DirectoryEntry.t),
     p2p.ParsePayload message = (args, None) →
     services.DirectoryEntry.Name args = "p2p.heartbeat" →
     services.iteration now st (services.OnMessage message)
     = (services.Continue,
        {| services.directory := services.directory st;
           services.p2P := services.p2P st;
           services.timeoutDelay := 3 * time.Minute;
           services.lastHeartbeatTimestamp := now |}))
  ∧ (now - services.lastHeartbeatTimestamp st ≤ services.timeoutDelay st →
     services.iteration now st services.After30s
     = (services.Continue,
        {| services.directory := services.directory st;
           services.p2P :=
             fst (p2p.PublishJson (services.p2P st) "Directory.Add"
                    (services.heartbeat now));
           services.timeoutDelay := services.timeoutDelay st;
           services.lastHeartbeatTimestamp := services.lastHeartbeatTimestamp st |}))
  ∧ services.DirectoryEntry.Name (services.heartbeat now) = "p2p.heartbeat".
Proof.
  split; [|split].
  - intros message args Hparse Hname. simpl. by rewrite Hparse, Hname.
  - intros Hlive. simpl. unfold time.Since.
    assert (Hnot : (services.timeoutDelay st <? now - services.lastHeartbeatTimestamp st)
                   = false) by (apply Z.ltb_ge; lia).
    rewrite Hnot. by destruct (p2p.PublishJson _ _ _).
  - done.
Qed.

End Inbound.

(** The message of scenario C adds [xyz] under [pairing] with the TTL of the
    mode [short], and an unsigned write to the read-only namespace [secure]
    is applied just the same, while the handler [Add] refuses it. *)
Lemma gossip_applied_directly_witness :
  let unsigned := fixture.entry "secure" "v9" "short" in
  services.iteration (fixture.noon + 1) fixture.started
    (services.OnMessage (fixture.gossip "Directory.Add" (fixture.entry "pairing" "xyz" "short")))
  = (services.Continue,
     {| services.directory :=
          {| fixture.values := {[ "pairing" := ["xyz"] ]};
             fixture.calls := [fixture.called_Add "pairing" "xyz" time.Minute] |};
        services.p2P := [];
        services.timeoutDelay := 15 * time.Minute;
        services.lastHeartbeatTimestamp := fixture.noon |})
  ∧ fixture.calls
      (services.directory
         (snd (services.iteration (fixture.noon + 1) fixture.started
                 (services.OnMessage (fixture.gossip "Directory.Add" unsigned)))))
    = [fixture.called_Add "secure" "v9" time.Minute]
  ∧ services.Add (fixture.noon + 1) (fixture.context_of fixture.empty) unsigned
      services.Response.zero
    = (fixture.context_of fixture.empty, {| services.Response.Status := "error" |}).
Proof.
  cbv zeta. split; [|split].
  - destruct (gossip_applied_directly (fixture.noon + 1) fixture.started
                (fixture.gossip "Directory.Add" (fixture.entry "pairing" "xyz" "short"))
                (fixture.entry "pairing" "xyz" "short")) as [Hadd _].
    + reflexivity.
    + simpl. discriminate.
    + rewrite Hadd; [|reflexivity]. vm_compute. reflexivity.
  - vm_compute. reflexivity.
  - vm_compute. reflexivity.
Defined.

(** A payload named [pairing] under the context [p2p.heartbeat]: the loop
    keeps its last heartbeat and its window. *)
Lemma heartbeat_by_payload_name_witness :
  let st := snd (services.iteration (fixture.noon + 1) fixture.started
                   (services.OnMessage
                      (fixture.gossip "p2p.heartbeat" (fixture.entry "pairing" "xyz" "short")))) in
  services.lastHeartbeatTimestamp st = fixture.noon
  ∧ services.timeoutDelay st = 15 * time.Minute.
Proof.
  cbv zeta.
  destruct (heartbeat_by_payload_name (fixture.noon + 1) fixture.started
              (fixture.gossip "p2p.heartbeat" (fixture.entry "pairing" "xyz" "short")))
    as (_ & Hother & _).
  apply (Hother (fixture.entry "pairing" "xyz" "short")).
  - reflexivity.
  - simpl. discriminate.
Defined.

(** C9 as the spec words it fails: a well-formed message under the context
    [p2p.heartbeat] whose payload does not carry the heartbeat name is not
    taken for a heartbeat.  The loop that started at noon handles it one
    second later: the last heartbeat is still noon, the window still 15
    minutes, and nothing else has changed either. *)
Lemma heartbeat_context_counterexample :
  let message := fixture.gossip "p2p.heartbeat" (fixture.entry "pairing" "xyz" "short") in
  let after := snd (services.iteration (fixture.noon + 1) fixture.started
                      (services.OnMessage message)) in
  p2p.Context message = "p2p.heartbeat"
  ∧ services.lastHeartbeatTimestamp after = fixture.noon
  ∧ services.lastHeartbeatTimestamp after ≠ fixture.noon + 1
  ∧ services.timeoutDelay after = 15 * time.Minute
  ∧ services.timeoutDelay after ≠ 3 * time.Minute
  ∧ after = fixture.started.
Proof.
  cbv zeta. repeat split; try reflexivity; vm_compute; discriminate.
Qed.

(** The heartbeat a node publishes at a tick, as another node receives it
    under the context [Directory.Add]: no call reaches the directory. *)
Lemma heartbeat_not_stored_witness :
  services.iteration (fixture.noon + 2) fixture.started
    (services.OnMessage
       (fixture.gossip "Directory.Add" (services.heartbeat (fixture.noon + 1))))
  = (services.Continue,
     {| services.directory := fixture.empty;
        services.p2P := [];
        services.timeoutDelay := 3 * time.Minute;
        services.lastHeartbeatTimestamp := fixture.noon + 2 |})
  ∧ snd (services.iteration (fixture.noon + 1) fixture.started services.After30s)
    = {| services.directory := fixture.empty;
         services.p2P := [("Directory.Add", services.heartbeat (fixture.noon + 1))];
         services.timeoutDelay := 15 * time.Minute;
         services.lastHeartbeatTimestamp := fixture.noon |}.
Proof.
  destruct (heartbeat_not_stored (fixture.noon + 2) fixture.started) as (Hbeat & _ & _).
  destruct (heartbeat_not_stored (fixture.noon + 1) fixture.started) as (_ & Htick & _).
  split.
  - apply (Hbeat (fixture.gossip "Directory.Add" (services.heartbeat (fixture.noon + 1)))
             (services.heartbeat (fixture.noon + 1))); reflexivity.
  - rewrite Htick; [reflexivity|]. vm_compute. discriminate.
Defined.

(** ** Scenario A of the specification *)

(** On the unmanaged namespace [pairing] an unsigned [Add] succeeds, is
    published under [Directory.Add], and an unsigned [List] then returns
    the value. *)
Example unmanaged_namespace :
  let added := services.Add fixture.noon (fixture.context_of fixture.empty)
                 (fixture.entry "pairing" "abc123" "short") services.Response.zero in
  snd added = {| services.Response.Status := "success" |}
  ∧ internal.P2PFromContext (fst added)
    = Some [("Directory.Add", fixture.entry "pairing" "abc123" "short")]
  ∧ services.List (λ i : nat, i) fixture.noon (fst added)
      (fixture.signed_list "pairing" 0 "" "" 0) services.DirectoryEntriesResponse.zero
    = {| services.DirectoryEntriesResponse.Name := "pairing";
         services.DirectoryEntriesResponse.Entries := make_slice ["abc123"] |}.
Proof.
  cbv zeta. split; [|split]; vm_compute; reflexivity.
Qed.

(** * Further properties of the verification *)

Lemma fmt_d_inj (a b : Z) : fmt_d a = fmt_d b → a = b.
Proof.
  unfold fmt_d. intros Heq.
  apply DecimalZ.to_int_inj.
  apply (f_equal NilEmpty.int_of_string) in Heq.
  rewrite !NilEmpty.isi in Heq. by injection Heq.
Qed.

(** Two texts without a full stop, each followed by a full stop and more:
    equal wholes have equal parts. *)
Lemma split_at_dot (a a' b b' : string) :
  has_dot a = false → has_dot a' = false →
  a +:+ "." +:+ b = a' +:+ "." +:+ b' → a = a' ∧ b = b'.
Proof.
  revert a'. induction a as [|c a IH]; intros [|c' a'] Ha Ha' Heq; simpl in *.
  - by injection Heq.
  - injection Heq as <- _. simpl in Ha'. done.
  - injection Heq as -> _. simpl in Ha. done.
  - injection Heq as <- Heq.
    apply orb_false_iff in Ha as [_ Ha]. apply orb_false_iff in Ha' as [_ Ha'].
    destruct (IH a' Ha Ha' Heq) as [-> ->]. done.
Qed.

Section Signing.
Context `{!confidential.Package}.

(** X1: a request that a managed policy lets through claims the pinned key,
    carries a timestamp within 24 hours of now, and its signature verifies
    over the canonical message of its method. *)
Theorem accepted_request_is_authentic (now : Z) (info : confidential.ConfidentialEntry) :
  managed info →
  (∀ p : services.DirectoryEntries.t,
     services.DirectoryEntries_VerifySignature now p info = None →
     services.DirectoryEntries.PublicKey p = confidential.PublicKey info
     ∧ in_window now (services.DirectoryEntries.Timestamp p)
     ∧ crypto_List info p = None)
  ∧ (∀ p : services.DirectoryEntry.t,
       services.DirectoryEntry_VerifySignature now p info = None →
       services.DirectoryEntry.PublicKey p = confidential.PublicKey info
       ∧ in_window now (services.DirectoryEntry.Timestamp p)
       ∧ crypto_Entry info p = None).
Proof.
  intros Hmanaged. apply managed_not_empty in Hmanaged.
  destruct (List_checks now info) as [_ Hlist].
  destruct (Entry_checks now info) as [_ Hentry].
  split; intros p Hok.
  - destruct (Hlist Hmanaged p) as (Hkey & Htime & Hcrypto).
    destruct (decide (services.DirectoryEntries.PublicKey p = confidential.PublicKey info))
      as [Heq|Hne]; [|rewrite (Hkey Hne) in Hok; discriminate Hok].
    assert (Hin : in_window now (services.DirectoryEntries.Timestamp p)).
    { unfold in_window.
      destruct (decide (now - 24 * time.Hour < services.DirectoryEntries.Timestamp p
                        < now + 24 * time.Hour)) as [Hin|Hout]; [done|].
      rewrite (Htime Heq Hout) in Hok. discriminate Hok. }
    rewrite (Hcrypto Heq Hin) in Hok. done.
  - destruct (Hentry Hmanaged p) as (Hkey & Htime & Hcrypto).
    destruct (decide (services.DirectoryEntry.PublicKey p = confidential.PublicKey info))
      as [Heq|Hne]; [|rewrite (Hkey Hne) in Hok; discriminate Hok].
    assert (Hin : in_window now (services.DirectoryEntry.Timestamp p)).
    { unfold in_window.
      destruct (decide (now - 24 * time.Hour < services.DirectoryEntry.Timestamp p
                        < now + 24 * time.Hour)) as [Hin|Hout]; [done|].
      rewrite (Htime Heq Hout) in Hok. discriminate Hok. }
    rewrite (Hcrypto Heq Hin) in Hok. done.
Qed.

(** X2: what a [List] signature covers: the name and the millisecond.  Two
    requests that agree on name, key, algorithm and signature, whose
    timestamps fall in one millisecond and on one side of the window, get
    one verdict, whatever their limits. *)
Theorem List_signature_covers_millisecond (now : Z) (info : confidential.ConfidentialEntry)
    (p p' : services.DirectoryEntries.t) :
  services.DirectoryEntries.Name p = services.DirectoryEntries.Name p' →
  services.DirectoryEntries.PublicKey p = services.DirectoryEntries.PublicKey p' →
  services.DirectoryEntries.Algorithm p = services.DirectoryEntries.Algorithm p' →
  services.DirectoryEntries.Signature p = services.DirectoryEntries.Signature p' →
  services.DirectoryEntries.Timestamp p ÷ 1000000
  = services.DirectoryEntries.Timestamp p' ÷ 1000000 →
  (in_window now (services.DirectoryEntries.Timestamp p)
   ↔ in_window now (services.DirectoryEntries.Timestamp p')) →
  services.DirectoryEntries_VerifySignature now p info
  = services.DirectoryEntries_VerifySignature now p' info.
Proof.
  intros Hname Hkey Halg Hsig Hms Hwindow.
  unfold services.DirectoryEntries_VerifySignature, services.list_message.
  rewrite <- Hname, <- Hkey, <- Halg, <- Hsig, <- Hms.
  destruct (services.no_key info); [done|]. cbv zeta.
  destruct (negb (String.eqb _ _)); [done|].
  rewrite <- !timeInRange_spec in Hwindow.
  destruct (services.timeInRange _ _ (services.DirectoryEntries.Timestamp p)),
    (services.timeInRange _ _ (services.DirectoryEntries.Timestamp p')); simpl; try done.
  - destruct Hwindow as [Hto _]. by specialize (Hto eq_refl).
  - destruct Hwindow as [_ Hfrom]. by specialize (Hfrom eq_refl).
Qed.

(** The mode of a write is not signed: changing it changes no verdict. *)
Lemma VerifySignature_ignores_mode (now : Z) (info : confidential.ConfidentialEntry)
    (p : services.DirectoryEntry.t) (mode : string) :
  services.DirectoryEntry_VerifySignature now (set_Mode p mode) info
  = services.DirectoryEntry_VerifySignature now p info.
Proof. done. Qed.

End Signing.

(** X3: under one name, the message of a write tells its timestamp and its
    entry: two writes to one namespace with one message have the same
    nanosecond timestamp and the same value. *)
Theorem entry_message_binds_timestamp_and_value (name : string) (t t' : Z)
    (entry entry' : string) :
  services.entry_message name t entry = services.entry_message name t' entry' →
  t = t' ∧ entry = entry'.
Proof.
  unfold services.entry_message. intros Heq.
  apply append_cancel_l, append_cancel_l in Heq.
  apply split_at_dot in Heq as [Ht He]; [|apply fmt_d_no_dot..].
  split; [by apply fmt_d_inj|done].
Qed.

Lemma entry_message_binds_witness :
  1700000000000000001 = 1700000000000000001 ∧ "v1" = "v1".
Proof.
  apply (entry_message_binds_timestamp_and_value "secure"
           1700000000000000001 1700000000000000001 "v1" "v1").
  reflexivity.
Defined.

(** X4: across names the two formats meet: the message signed to list the
    namespace [name.t] in the millisecond [ms] is the message of a write to
    the namespace [name] at the timestamp [t] with the decimal text of [ms]
    as its entry. *)
Theorem list_message_is_an_entry_message (name : string) (t t2 : Z) :
  services.list_message (name +:+ "." +:+ fmt_d t) t2
  = services.entry_message name t (fmt_d (t2 ÷ 1000000)).
Proof.
  unfold services.list_message, services.entry_message.
  by rewrite !append_assoc.
Qed.

(** * Further properties of the handlers *)

Section Publishing.
Context {S N Message : Type}.
Context `{!soroban.Directory S} `{!p2p.P2P N Message services.DirectoryEntry.t}.
Context `{!confidential.Package}.

(** X5: what the handlers publish.  [Add] publishes the request under
    [Directory.Add] when the store took the write, and nothing when the
    store refused it; [Remove] publishes the request under
    [Directory.Remove] whatever the store said.  The status of both tells
    what the store said, never what the publication said. *)
Theorem writes_published (now : Z) (ctx : internal.Context S N) (directory : S) (p2p : N)
    (args : services.DirectoryEntry.t) (result : services.Response.t) :
  internal.DirectoryFromContext ctx = Some directory →
  internal.P2PFromContext ctx = Some p2p →
  write_check now args = None →
  let added :=
    soroban.Add directory (services.DirectoryEntry.Name args)
      (services.DirectoryEntry.Entry args)
      (soroban.TimeToLive directory (services.DirectoryEntry.Mode args)) in
  let removed :=
    soroban.Remove directory (services.DirectoryEntry.Name args)
      (services.DirectoryEntry.Entry args) in
  services.Add now ctx args result
  = (internal.Build_Context (Some (fst added))
       (Some (match snd added with
              | None => fst (p2p.PublishJson p2p "Directory.Add" args)
              | Some _ => p2p
              end)),
     {| services.Response.Status :=
          match snd added with None => "success" | Some _ => "error" end |})
  ∧ services.Remove now ctx args result
    = (internal.Build_Context (Some (fst removed))
         (Some (fst (p2p.PublishJson p2p "Directory.Remove" args))),
       {| services.Response.Status :=
            match snd removed with None => "success" | Some _ => "error" end |}).
Proof.
  intros Hdir Hp2p Hcheck added removed. subst added removed.
  unfold write_check in Hcheck. cbv zeta in Hcheck. split.
  - unfold services.Add. rewrite Hdir, Hp2p. cbv zeta. rewrite Hcheck.
    unfold services.addToDirectory.
    destruct (soroban.Add _ _ _ _) as [directory' [e|]]; simpl; [done|].
    by destruct (p2p.PublishJson _ _ _).
  - unfold services.Remove. rewrite Hdir. cbv zeta. rewrite Hcheck, Hp2p.
    unfold services.removeFromDirectory.
    destruct (soroban.Remove _ _ _) as [directory' [e|]]; simpl;
      by destruct (p2p.PublishJson _ _ _).
Qed.

(** X6: without a directory or without a gossip session in the context, [Add]
    and [Remove] do nothing at all: no write reaches the store that could
    not be published.  Without a directory [List] leaves the response
    alone. *)
Theorem handlers_need_their_dependencies (draw : nat → nat) (now : Z)
    (ctx : internal.Context S N) :
  (internal.DirectoryFromContext ctx = None ∨ internal.P2PFromContext ctx = None →
   ∀ (args : services.DirectoryEntry.t) (result : services.Response.t),
     services.Add now ctx args result = (ctx, result)
     ∧ services.Remove now ctx args result = (ctx, result))
  ∧ (internal.DirectoryFromContext ctx = None →
     ∀ (args : services.DirectoryEntries.t) (result : services.DirectoryEntriesResponse.t),
       services.List draw now ctx args result = result).
Proof.
  split.
  - intros Hmissing args result. unfold services.Add, services.Remove.
    destruct (internal.DirectoryFromContext ctx) as [directory|]; [|done].
    destruct Hmissing as [Hdir|Hp2p]; [done|].
    rewrite Hp2p. split; [done|]. cbv zeta.
    by destruct (if confidential.ReadOnly _ then _ else _).
  - intros Hdir args result. unfold services.List. by rewrite Hdir.
Qed.

(** X7: a signature on a write covers neither the mode nor the operation: when
    a request passes the check, the same request with any other mode
    passes it and is added with the TTL of that mode, and the same request
    handed to [Remove] removes the value. *)
Theorem signed_write_replays (now : Z) (ctx : internal.Context S N) (directory : S) (p2p : N)
    (args : services.DirectoryEntry.t) (result : services.Response.t) (mode : string) :
  internal.DirectoryFromContext ctx = Some directory →
  internal.P2PFromContext ctx = Some p2p →
  write_check now args = None →
  write_check now (set_Mode args mode) = None
  ∧ internal.DirectoryFromContext (fst (services.Add now ctx (set_Mode args mode) result))
    = Some (fst (soroban.Add directory (services.DirectoryEntry.Name args)
                   (services.DirectoryEntry.Entry args)
                   (soroban.TimeToLive directory mode)))
  ∧ internal.DirectoryFromContext (fst (services.Remove now ctx args result))
    = Some (fst (soroban.Remove directory (services.DirectoryEntry.Name args)
                   (services.DirectoryEntry.Entry args))).
Proof.
  intros Hdir Hp2p Hcheck.
  assert (Hmode : write_check now (set_Mode args mode) = None) by exact Hcheck.
  split; [exact Hmode|]. split.
  - by destruct (Add_verified now ctx directory p2p (set_Mode args mode) result
                   Hdir Hp2p Hmode) as [Hstore _].
  - by destruct (Remove_verified now ctx directory p2p args result Hdir Hp2p Hcheck)
      as [Hstore _].
Qed.

(** X8: replication of one write.  When a write passes the check of a node and
    the message it publishes reaches a peer whose directory is in the state
    the node's was in, the peer's directory ends in the state of the
    node's, provided the namespace is not named [p2p.heartbeat]. *)
Theorem replicated_write_matches (now now' : Z) (ctx : internal.Context S N)
    (directory : S) (p2p : N) (args : services.DirectoryEntry.t)
    (result : services.Response.t) (peer : services.loop (S := S) (N := N))
    (message : Message) :
  internal.DirectoryFromContext ctx = Some directory →
  internal.P2PFromContext ctx = Some p2p →
  write_check now args = None →
  services.DirectoryEntry.Name args ≠ "p2p.heartbeat" →
  p2p.ParsePayload message = (args, None) →
  services.directory peer = directory →
  (p2p.Context message = "Directory.Add" →
   internal.DirectoryFromContext (fst (services.Add now ctx args result))
   = Some (services.directory
             (snd (services.iteration now' peer (services.OnMessage message)))))
  ∧ (p2p.Context message = "Directory.Remove" →
     internal.DirectoryFromContext (fst (services.Remove now ctx args result))
     = Some (services.directory
               (snd (services.iteration now' peer (services.OnMessage message))))).
Proof.
  intros Hdir Hp2p Hcheck Hname Hparse Hpeer.
  destruct (Add_verified now ctx directory p2p args result Hdir Hp2p Hcheck)
    as [Hadd _].
  destruct (Remove_verified now ctx directory p2p args result Hdir Hp2p Hcheck)
    as [Hremove _].
  cbv zeta in Hadd, Hremove.
  apply heartbeat_name in Hname.
  split; intros Hcontext; simpl; rewrite Hparse, Hname, Hcontext, Hpeer; simpl.
  - rewrite Hadd. by destruct (soroban.Add _ _ _ _).
  - rewrite Hremove. by destruct (soroban.Remove _ _ _).
Qed.

(** X9: the namespace [p2p.heartbeat] does not replicate.  [Add] takes a write
    to it like any other (the store gets it, the request is published when
    the store took it), but a peer that receives the message does not
    store it: it takes it for a heartbeat and resets its own liveness. *)
Theorem heartbeat_namespace_not_replicated (now now' : Z) (ctx : internal.Context S N)
    (directory : S) (p2p : N) (args : services.DirectoryEntry.t)
    (result : services.Response.t) (peer : services.loop (S := S) (N := N))
    (message : Message) :
  internal.DirectoryFromContext ctx = Some directory →
  internal.P2PFromContext ctx = Some p2p →
  write_check now args = None →
  services.DirectoryEntry.Name args = "p2p.heartbeat" →
  p2p.ParsePayload message = (args, None) →
  internal.DirectoryFromContext (fst (services.Add now ctx args result))
  = Some (fst (soroban.Add directory "p2p.heartbeat" (services.DirectoryEntry.Entry args)
                 (soroban.TimeToLive directory (services.DirectoryEntry.Mode args))))
  ∧ services.iteration now' peer (services.OnMessage message)
    = (services.Continue,
       {| services.directory := services.directory peer;
          services.p2P := services.p2P peer;
          services.timeoutDelay := 3 * time.Minute;
          services.lastHeartbeatTimestamp := now' |}).
Proof.
  intros Hdir Hp2p Hcheck Hname Hparse.
  destruct (Add_verified now ctx directory p2p args result Hdir Hp2p Hcheck) as [Hstore _].
  cbv zeta in Hstore. rewrite Hname in Hstore.
  split; [exact Hstore|].
  simpl. by rewrite Hparse, Hname.
Qed.

End Publishing.

(** * Further properties of the gossip loop *)

Section LoopFrames.
Context {S N Message : Type}.
Context `{!soroban.Directory S} `{!p2p.P2P N Message services.DirectoryEntry.t}.

Implicit Types (st : services.loop (S := S) (N := N)).
Implicit Types (ev : services.event (Message := Message)).
Implicit Types (events : list (Z * services.event (Message := Message))).

Lemma loop_eta st :
  {| services.directory := services.directory st;
     services.p2P := services.p2P st;
     services.timeoutDelay := services.timeoutDelay st;
     services.lastHeartbeatTimestamp := services.lastHeartbeatTimestamp st |} = st.
Proof. by destruct st. Qed.

(** A message leaves the session alone. *)
Lemma iteration_message_session (now : Z) st (message : Message) :
  services.p2P (snd (services.iteration now st (services.OnMessage message)))
  = services.p2P st.
Proof.
  simpl. destruct (p2p.ParsePayload message) as [args [e|]]; simpl; [done|].
  destruct (String.eqb _ _); simpl; [done|].
  by destruct (if String.eqb _ _ then _ else _).
Qed.

(** What a message does to the directory depends on the directory alone. *)
Lemma iteration_message_directory (now now' : Z) st1 st2 (message : Message) :
  services.directory st1 = services.directory st2 →
  services.directory (snd (services.iteration now st1 (services.OnMessage message)))
  = services.directory (snd (services.iteration now' st2 (services.OnMessage message))).
Proof.
  intros Hsame. simpl.
  destruct (p2p.ParsePayload message) as [args [e|]]; simpl; [done|].
  destruct (String.eqb _ _); simpl; [done|].
  rewrite Hsame.
  by destruct (if String.eqb _ _ then _ else _).
Qed.

(** A tick and the end of the context leave the directory alone. *)
Lemma iteration_other_directory (now : Z) st ev :
  message_event ev = false →
  services.directory (snd (services.iteration now st ev)) = services.directory st.
Proof.
  destruct ev as [message| |]; simpl; [done| |done].
  intros _. destruct (_ <? _); simpl; [done|].
  by destruct (p2p.PublishJson _ _ _).
Qed.

(** X10: messages never end the loop and never make it publish: after any
    number of them, whatever they hold, the loop goes on and the session
    is as it was. *)
Theorem messages_never_stop_the_loop st events :
  forallb (λ e, message_event (snd e)) events = true →
  fst (services.run st events) = services.Continue
  ∧ services.p2P (snd (services.run st events)) = services.p2P st.
Proof.
  revert st. induction events as [|[now ev] events IH]; intros st Hall; [done|].
  simpl in Hall. apply andb_true_iff in Hall as [Hmessage Hall].
  destruct ev as [message| |]; try discriminate Hmessage.
  rewrite run_cons.
  pose proof (iteration_OnMessage now st message) as Hgo.
  pose proof (iteration_message_session now st message) as Hsession.
  destruct (services.iteration now st (services.OnMessage message)) as [c st1].
  simpl in Hgo, Hsession. subst c.
  destruct (IH st1 Hall) as [Hcontinue Hsame].
  split; [done|]. by rewrite Hsame.
Qed.

Lemma messages_of_cons (now : Z) ev events :
  messages_of ((now, ev) :: events)
  = if message_event ev then (now, ev) :: messages_of events else messages_of events.
Proof. done. Qed.

(** X11: the directory follows the messages alone: after a run that leaves the
    loop going, the directory is the one the messages of the run lead to,
    in their order, without the ticks between them. *)
Theorem directory_follows_messages events : ∀ st st',
  services.run st events = (services.Continue, st') →
  services.directory st'
  = services.directory (snd (services.run st (messages_of events))).
Proof.
  assert (Hgen : ∀ st1 st2 st',
            services.directory st1 = services.directory st2 →
            services.run st1 events = (services.Continue, st') →
            services.directory st'
            = services.directory (snd (services.run st2 (messages_of events)))).
  { induction events as [|[now ev] events IH]; intros st1 st2 st' Hsame Hrun.
    - simpl in *. by injection Hrun as <-.
    - rewrite run_cons in Hrun. rewrite messages_of_cons.
      destruct ev as [message| |]; cbn [message_event].
      + rewrite run_cons.
        pose proof (iteration_message_directory now now st1 st2 message Hsame) as Hstep.
        pose proof (iteration_OnMessage now st2 message) as Hgo.
        destruct (services.iteration now st1 (services.OnMessage message)) as [c1 st1'].
        destruct (services.iteration now st2 (services.OnMessage message)) as [c2 st2'].
        simpl in Hstep, Hgo. subst c2.
        destruct c1; [|done|done].
        by apply (IH st1' st2' st').
      + pose proof (iteration_other_directory now st1 services.After30s eq_refl) as Hstep.
        destruct (services.iteration now st1 services.After30s) as [[| |] st1']; [|done|done].
        simpl in Hstep. apply (IH st1' st2 st'); [congruence|done].
      + simpl in Hrun. discriminate Hrun. }
  intros st st'. by apply Hgen.
Qed.

(** X12: a message the loop has no use for is dropped: a payload that does not
    parse, or a payload that is not a heartbeat under a context that is
    neither [Directory.Add] nor [Directory.Remove], leaves the loop exactly
    as it was. *)
Theorem unknown_message_dropped (now : Z) st (message : Message) :
  snd (p2p.ParsePayload message) ≠ None
  ∨ (services.DirectoryEntry.Name (fst (p2p.ParsePayload message)) ≠ "p2p.heartbeat"
     ∧ p2p.Context message ≠ "Directory.Add"
     ∧ p2p.Context message ≠ "Directory.Remove") →
  services.iteration now st (services.OnMessage message) = (services.Continue, st).
Proof.
  intros Hunknown. simpl.
  destruct (p2p.ParsePayload message) as [args [e|]]; simpl in *; [done|].
  destruct Hunknown as [Hparse|(Hname & Hadd & Hremove)]; [done|].
  apply heartbeat_name in Hname. rewrite Hname.
  apply String.eqb_neq in Hadd, Hremove. rewrite Hadd, Hremove.
  by rewrite loop_eta.
Qed.

(** X13: the process is ended only at a tick, with the code 0, and only when
    more than the window has passed since the last heartbeat: from a loop
    whose window is at least 3 minutes, the tick comes more than 3 minutes
    after the last heartbeat, which is the one the loop started with or
    the clock reading of a heartbeat among the events. *)
Theorem no_early_exit events : ∀ st st' (code : Z),
  3 * time.Minute ≤ services.timeoutDelay st →
  services.run st events = (services.Exit code, st') →
  code = 0
  ∧ ∃ now : Z,
      (now, services.After30s) ∈ events
      ∧ 3 * time.Minute < now - services.lastHeartbeatTimestamp st'
      ∧ (services.lastHeartbeatTimestamp st' = services.lastHeartbeatTimestamp st
         ∨ ∃ message : Message,
             (services.lastHeartbeatTimestamp st', services.OnMessage message) ∈ events
             ∧ is_heartbeat message = true).
Proof.
  induction events as [|[now ev] events IH]; intros st st' code Hwindow Hrun; [done|].
  rewrite run_cons in Hrun.
  destruct (iteration_liveness now st ev) as [Hdelay Hbeat].
  destruct (services.iteration now st ev) as [[|code1|] st1] eqn:Hstep; simpl in Hdelay, Hbeat.
  - assert (Hwindow1 : 3 * time.Minute ≤ services.timeoutDelay st1).
    { rewrite Hdelay. by destruct (heartbeat_event ev). }
    destruct (IH st1 st' code Hwindow1 Hrun) as (Hcode & tick & Hin & Hlate & Horigin).
    split; [done|]. exists tick. split; [by apply list_elem_of_further|].
    split; [done|].
    destruct Horigin as [Hsame|(message & Hin' & Hheart)].
    + rewrite Hsame, Hbeat.
      destruct ev as [message| |]; simpl; try by left.
      destruct (is_heartbeat message) eqn:Hheart; [|by left].
      right. exists message. split; [apply list_elem_of_here|done].
    + right. exists message. split; [by apply list_elem_of_further|done].
  - injection Hrun as -> ->.
    destruct ev as [message| |].
    + pose proof (iteration_OnMessage now st message) as Hgo.
      rewrite Hstep in Hgo. discriminate Hgo.
    + simpl in Hstep. unfold time.Since in Hstep.
      destruct (_ <? _) eqn:Hlate; [|by destruct (p2p.PublishJson _ _ _)].
      injection Hstep as <- <-. apply Z.ltb_lt in Hlate.
      split; [done|]. exists now. split; [apply list_elem_of_here|].
      split; [lia|by left].
    + simpl in Hstep. discriminate Hstep.
  - discriminate Hrun.
Qed.

End LoopFrames.

(** * The further properties at concrete inputs *)

Lemma accepted_request_is_authentic_witness :
  services.DirectoryEntry.PublicKey fixture.signed_v1 = "PK1"
  ∧ in_window fixture.noon (services.DirectoryEntry.Timestamp fixture.signed_v1)
  ∧ crypto_Entry fixture.secure fixture.signed_v1 = None.
Proof.
  assert (Hmanaged : managed fixture.secure).
  { repeat split; discriminate. }
  destruct (accepted_request_is_authentic fixture.noon fixture.secure Hmanaged)
    as [_ Hentry].
  apply Hentry. reflexivity.
Defined.

Lemma List_signature_covers_millisecond_witness :
  services.DirectoryEntries_VerifySignature fixture.noon
    (fixture.signed_list "secure" 0 "PK1"
       (fixture.sign "PK1" (services.list_message "secure" fixture.noon)) fixture.noon)
    fixture.secure
  = services.DirectoryEntries_VerifySignature fixture.noon
      (fixture.signed_list "secure" 7 "PK1"
         (fixture.sign "PK1" (services.list_message "secure" fixture.noon))
         (fixture.noon + 999999))
      fixture.secure.
Proof.
  apply List_signature_covers_millisecond; reflexivity.
Defined.

Lemma writes_published_witness :
  services.Add fixture.noon (fixture.context_of fixture.empty) fixture.signed_v1
    services.Response.zero
  = (internal.Build_Context
       (Some (fst (fixture.memory_Add fixture.empty "secure" "v1" (15 * time.Minute))))
       (Some [("Directory.Add", fixture.signed_v1)]),
     {| services.Response.Status := "success" |})
  ∧ services.Remove fixture.noon (fixture.context_of fixture.empty) fixture.signed_v1
      services.Response.zero
    = (internal.Build_Context
         (Some (fst (fixture.memory_Remove fixture.empty "secure" "v1")))
         (Some [("Directory.Remove", fixture.signed_v1)]),
       {| services.Response.Status := "success" |}).
Proof.
  destruct (writes_published fixture.noon (fixture.context_of fixture.empty)
              fixture.empty [] fixture.signed_v1 services.Response.zero)
    as [Hadd Hremove]; [reflexivity|reflexivity|reflexivity|].
  split; [rewrite Hadd|rewrite Hremove]; vm_compute; reflexivity.
Defined.

(** With a directory and no session, a rightly signed write does nothing. *)
Lemma handlers_need_their_dependencies_witness :
  services.Add fixture.noon
    (internal.Build_Context (Some fixture.empty) (@None fixture.outbox))
    fixture.signed_v1 services.Response.zero
  = (internal.Build_Context (Some fixture.empty) None, services.Response.zero)
  ∧ services.Remove fixture.noon
      (internal.Build_Context (Some fixture.empty) (@None fixture.outbox))
      fixture.signed_v1 services.Response.zero
    = (internal.Build_Context (Some fixture.empty) None, services.Response.zero).
Proof.
  destruct (handlers_need_their_dependencies (Message := fixture.message) (λ i : nat, i)
              fixture.noon
              (internal.Build_Context (Some fixture.empty) (@None fixture.outbox)))
    as [Hwrites _].
  apply Hwrites. by right.
Defined.

(** The write signed with the mode [default], replayed with the mode
    [short], is added for one minute; replayed to [Remove], it removes. *)
Lemma signed_write_replays_witness :
  write_check fixture.noon (set_Mode fixture.signed_v1 "short") = None
  ∧ internal.DirectoryFromContext
      (fst (services.Add fixture.noon (fixture.context_of fixture.empty)
              (set_Mode fixture.signed_v1 "short") services.Response.zero))
    = Some (fst (fixture.memory_Add fixture.empty "secure" "v1" time.Minute))
  ∧ internal.DirectoryFromContext
      (fst (services.Remove fixture.noon (fixture.context_of fixture.empty)
              fixture.signed_v1 services.Response.zero))
    = Some (fst (fixture.memory_Remove fixture.empty "secure" "v1")).
Proof.
  destruct (signed_write_replays fixture.noon (fixture.context_of fixture.empty)
              fixture.empty [] fixture.signed_v1 services.Response.zero "short")
    as (Hcheck & Hadd & Hremove); [reflexivity|reflexivity|reflexivity|].
  split; [exact Hcheck|].
  split; [rewrite Hadd|rewrite Hremove]; vm_compute; reflexivity.
Defined.

Lemma replicated_write_matches_witness :
  internal.DirectoryFromContext
    (fst (services.Add fixture.noon (fixture.context_of fixture.empty) fixture.signed_v1
            services.Response.zero))
  = Some (services.directory
            (snd (services.iteration (fixture.noon + 1) fixture.started
                    (services.OnMessage (fixture.gossip "Directory.Add" fixture.signed_v1))))).
Proof.
  destruct (replicated_write_matches fixture.noon (fixture.noon + 1)
              (fixture.context_of fixture.empty) fixture.empty [] fixture.signed_v1
              services.Response.zero fixture.started
              (fixture.gossip "Directory.Add" fixture.signed_v1)) as [Hadd _];
    [reflexivity|reflexivity|reflexivity|simpl; discriminate|reflexivity|reflexivity|].
  apply Hadd. reflexivity.
Defined.

(** A write to the namespace [p2p.heartbeat]: stored by the node that got
    the request, not stored by the peer that gets the message. *)
Lemma heartbeat_namespace_not_replicated_witness :
  fixture.listed
    (fst (services.Add fixture.noon (fixture.context_of fixture.empty)
            (fixture.entry "p2p.heartbeat" "x" "short") services.Response.zero))
    "p2p.heartbeat"
  = ["x"]
  ∧ services.iteration (fixture.noon + 1) fixture.started
      (services.OnMessage
         (fixture.gossip "Directory.Add" (fixture.entry "p2p.heartbeat" "x" "short")))
    = (services.Continue,
       {| services.directory := fixture.empty;
          services.p2P := [];
          services.timeoutDelay := 3 * time.Minute;
          services.lastHeartbeatTimestamp := fixture.noon + 1 |}).
Proof.
  destruct (heartbeat_namespace_not_replicated fixture.noon (fixture.noon + 1)
              (fixture.context_of fixture.empty) fixture.empty []
              (fixture.entry "p2p.heartbeat" "x" "short")
              services.Response.zero fixture.started
              (fixture.gossip "Directory.Add" (fixture.entry "p2p.heartbeat" "x" "short")))
    as [Hlocal Hpeer]; [reflexivity|reflexivity|reflexivity|reflexivity|reflexivity|].
  split; [|exact Hpeer].
  unfold fixture.listed. rewrite Hlocal. vm_compute. reflexivity.
Defined.

Lemma messages_never_stop_the_loop_witness :
  fst (services.run fixture.started (messages_of fixture.quiet_run)) = services.Continue
  ∧ services.p2P (snd (services.run fixture.started (messages_of fixture.quiet_run))) = [].
Proof.
  apply (messages_never_stop_the_loop fixture.started (messages_of fixture.quiet_run)).
  reflexivity.
Defined.

Lemma directory_follows_messages_witness :
  services.directory (snd (services.run fixture.started fixture.quiet_run))
  = services.directory (snd (services.run fixture.started (messages_of fixture.quiet_run))).
Proof.
  apply (directory_follows_messages fixture.quiet_run fixture.started).
  vm_compute. reflexivity.
Defined.

Lemma unknown_message_dropped_witness :
  services.iteration (fixture.noon + 1) fixture.started
    (services.OnMessage (fixture.gossip "Directory.Update" (fixture.entry "pairing" "x" "short")))
  = (services.Continue, fixture.started).
Proof.
  apply unknown_message_dropped. right. simpl. repeat split; discriminate.
Defined.

(** The run [fatal_run] ends the process at its tick, four minutes after
    the heartbeat it holds. *)
Lemma no_early_exit_witness :
  0 = 0
  ∧ ∃ now : Z,
      (now, services.After30s) ∈ fixture.fatal_run
      ∧ 3 * time.Minute
        < now - services.lastHeartbeatTimestamp
                  (snd (services.run fixture.started fixture.fatal_run))
      ∧ (services.lastHeartbeatTimestamp
           (snd (services.run fixture.started fixture.fatal_run))
         = services.lastHeartbeatTimestamp fixture.started
         ∨ ∃ message : fixture.message,
             (services.lastHeartbeatTimestamp
                (snd (services.run fixture.started fixture.fatal_run)),
              services.OnMessage message) ∈ fixture.fatal_run
             ∧ is_heartbeat message = true).
Proof.
  apply (no_early_exit fixture.fatal_run fixture.started
           (snd (services.run fixture.started fixture.fatal_run)) 0).
  - vm_compute. discriminate.
  - vm_compute. reflexivity.
Defined.

(** * The key generation of [server/gen.go] *)

Lemma byte_in_all_bytes (b : Z) : byte b → b ∈ all_bytes.
Proof.
  intros [Hlo Hhi]. unfold all_bytes.
  apply list_elem_of_fmap. exists (Z.to_nat b). split; [lia|].
  apply list_elem_of_In, in_seq. lia.
Qed.

(** A property of bytes that holds of each of the 256 holds of every byte. *)
Lemma byte_cases (P : Z → bool) :
  forallb P all_bytes = true → ∀ b, byte b → P b = true.
Proof.
  intros Hall b Hb. rewrite forallb_forall in Hall.
  apply Hall, list_elem_of_In, byte_in_all_bytes, Hb.
Qed.

Lemma clamp_low (b : Z) : byte b → byte (Z.land b 248) ∧ Z.land b 248 mod 8 = 0.
Proof.
  intros Hb.
  pose proof (byte_cases (λ b, (0 <=? Z.land b 248) && (Z.land b 248 <? 256)
                               && (Z.land b 248 mod 8 =? 0)) eq_refl b Hb) as Hcase.
  simpl in Hcase. apply andb_true_iff in Hcase as [Hcase Hmod].
  apply andb_true_iff in Hcase as [Hlo Hhi].
  unfold byte. lia.
Qed.

Lemma clamp_high (b : Z) : byte b → 64 ≤ Z.lor (Z.land b 127) 64 < 128.
Proof.
  intros Hb.
  pose proof (byte_cases (λ b, (64 <=? Z.lor (Z.land b 127) 64)
                               && (Z.lor (Z.land b 127) 64 <? 128)) eq_refl b Hb) as Hcase.
  simpl in Hcase. apply andb_true_iff in Hcase as [Hlo Hhi]. lia.
Qed.

Lemma little_endian_bound (l : list Z) :
  Forall byte l → 0 ≤ little_endian l < 256 ^ Z.of_nat (length l).
Proof.
  induction 1 as [|b l Hb _ IH]; simpl little_endian; [simpl; lia|].
  rewrite length_cons, Nat2Z.inj_succ, Z.pow_succ_r by lia.
  unfold byte in Hb. lia.
Qed.

Lemma little_endian_snoc (l : list Z) (b : Z) :
  little_endian (l ++ [b])%list = little_endian l + 256 ^ Z.of_nat (length l) * b.
Proof.
  induction l as [|x l IH]; simpl little_endian; [simpl; lia|].
  rewrite IH, length_cons, Nat2Z.inj_succ, Z.pow_succ_r by lia. lia.
Qed.

Lemma little_endian_mod8 (l : list Z) (b : Z) :
  l !! 0%nat = Some b → little_endian l mod 8 = b mod 8.
Proof.
  destruct l as [|x l]; [done|]. intros [= ->]. simpl little_endian.
  replace (b + 256 * little_endian l) with (b + (32 * little_endian l) * 8) by lia.
  apply Z.mod_add. lia.
Qed.

Section Expand.
Variable Sum512 : list Z → list Z.
Variable base64 : list Z → string.

(** X14: the expanded key.  [expandKey] panics on a key whose capacity is
    below 32 bytes ([pri[:32]]), whatever SHA-512 is.  On a key of
    capacity 32 or more it returns the base64 text of an array [h], the
    hash of the first 32 bytes of the key's array with three bytes
    changed, and, when SHA-512 gives 64 bytes: [h] has 64 bytes; its first
    32 bytes, read least significant byte first, are a multiple of 8
    between [2^254] and [2^255], the clamped scalar of ed25519; its last
    32 bytes and the bytes 1 to 30 are those of the hash. *)
Theorem expanded_key_is_clamped (pri : server.byte_slice) :
  let seed := take 32 (server.elements pri ++ server.spare pri)%list in
  length (Sum512 seed) = 64%nat →
  Forall byte (Sum512 seed) →
  ((server.cap pri < 32)%nat →
     server.expanded Sum512 pri = None
     ∧ server.expandKey Sum512 base64 pri = None)
  ∧ ((32 ≤ server.cap pri)%nat →
       ∃ h : list Z,
         server.expanded Sum512 pri = Some h
         ∧ server.expandKey Sum512 base64 pri = Some (base64 h)
         ∧ length h = 64%nat ∧ Forall byte h
         ∧ little_endian (take 32 h) mod 8 = 0
         ∧ 2 ^ 254 ≤ little_endian (take 32 h) < 2 ^ 255
         ∧ drop 32 h = drop 32 (Sum512 seed)
         ∧ ∀ i : nat, (0 < i < 31)%nat → h !! i = Sum512 seed !! i).
Proof.
  intros seed Hlen Hbytes. split.
  - intros Hcap. unfold server.expandKey, server.expanded, server.slice_to.
    apply Nat.leb_gt in Hcap. by rewrite Hcap.
  - intros Hcap. unfold server.expandKey, server.expanded, server.slice_to.
    apply Nat.leb_le in Hcap. rewrite Hcap. cbv zeta. fold seed.
    set (h0 := Sum512 seed) in *.
    destruct (lookup_lt_is_Some_2 h0 0) as [b0 Hb0]; [lia|].
    destruct (lookup_lt_is_Some_2 h0 31) as [b31 Hb31]; [lia|].
    assert (Hbyte0 : byte b0) by (eapply Forall_lookup_1; eauto).
    assert (Hbyte31 : byte b31) by (eapply Forall_lookup_1; eauto).
    set (h := alter _ 31%nat (alter _ 31%nat (alter _ 0%nat h0))).
    exists h. split; [done|]. split; [done|].
    assert (Hlen' : length h = 64%nat) by (subst h; by rewrite !length_alter).
    assert (Hfirst : h !! 0%nat = Some (Z.land b0 248)).
    { subst h. rewrite !list_lookup_alter_ne by lia.
      by rewrite list_lookup_alter_eq, Hb0. }
    assert (Hlast : h !! 31%nat = Some (Z.lor (Z.land b31 127) 64)).
    { subst h. rewrite !list_lookup_alter_eq, list_lookup_alter_ne by lia.
      by rewrite Hb31. }
    assert (Hall : Forall byte h).
    { subst h. apply Forall_alter; [apply Forall_alter; [apply Forall_alter|]|]; try done.
      - intros x _ Hx. by apply clamp_low.
      - intros x _ Hx. pose proof (byte_cases (λ b, (0 <=? Z.land b 127) && (Z.land b 127 <? 256)) eq_refl x Hx) as Hc.
        simpl in Hc. apply andb_true_iff in Hc as [? ?]. unfold byte. lia.
      - intros x _ Hx. pose proof (byte_cases (λ b, (0 <=? Z.lor b 64) && (Z.lor b 64 <? 256)) eq_refl x Hx) as Hc.
        simpl in Hc. apply andb_true_iff in Hc as [? ?]. unfold byte. lia. }
    split; [done|]. split; [done|].
    assert (Htake : take 32 h = (take 31 h ++ [Z.lor (Z.land b31 127) 64])%list).
    { by apply take_S_r. }
    split; [|split; [|split]].
    + rewrite (little_endian_mod8 _ (Z.land b0 248)).
      * by apply clamp_low.
      * by rewrite lookup_take_lt by lia.
    + rewrite Htake, little_endian_snoc.
      pose proof (little_endian_bound (take 31 h)) as Hbound.
      rewrite length_take_le in * by lia.
      specialize (Hbound ltac:(by apply Forall_take)).
      pose proof (clamp_high b31 Hbyte31) as Hhigh.
      change (2 ^ 254) with (64 * 256 ^ Z.of_nat 31).
      change (2 ^ 255) with (128 * 256 ^ Z.of_nat 31).
      nia.
    + subst h. by rewrite !drop_alter_lt by lia.
    + intros i Hi. subst h. by rewrite !list_lookup_alter_ne by lia.
Qed.
End Expand.

(** ** The service ID *)

Lemma byte_pair_cases (P : Z → Z → bool) :
  forallb (λ a, forallb (P a) all_bytes) all_bytes = true →
  ∀ a b, byte a → byte b → P a b = true.
Proof.
  intros Hall a b Ha Hb.
  pose proof (byte_cases _ Hall a Ha) as Hrow. simpl in Hrow.
  by apply (byte_cases _ Hrow).
Qed.

Lemma quantum_is_arith (s0 s1 s2 s3 s4 : Z) :
  byte s0 → byte s1 → byte s2 → byte s3 → byte s4 →
  base32.quantum s0 s1 s2 s3 s4 = quantum_arith s0 s1 s2 s3 s4.
Proof.
  intros H0 H1 H2 H3 H4. unfold base32.quantum, quantum_arith.
  assert (Hone : ∀ b, byte b →
            Z.shiftr b 3 = b / 8 ∧ Z.land (Z.shiftr b 1) 31 = (b / 2) mod 32
            ∧ Z.land (Z.shiftr b 2) 31 = (b / 4) mod 32 ∧ Z.land b 31 = b mod 32).
  { intros b Hb.
    pose proof (byte_cases
                  (λ b, (Z.shiftr b 3 =? b / 8) && (Z.land (Z.shiftr b 1) 31 =? (b / 2) mod 32)
                        && (Z.land (Z.shiftr b 2) 31 =? (b / 4) mod 32)
                        && (Z.land b 31 =? b mod 32))
                  ltac:(vm_compute; reflexivity) b Hb) as Hc.
    simpl in Hc. repeat (apply andb_true_iff in Hc as [Hc ?]). lia. }
  assert (Htwo : ∀ a b, byte a → byte b →
            Z.lor (Z.land (Z.shiftl a 2) 31) (Z.land (Z.shiftr b 6) 31) = (a mod 8) * 4 + b / 64
            ∧ Z.lor (Z.land (Z.shiftl a 4) 31) (Z.land (Z.shiftr b 4) 31) = (a mod 2) * 16 + b / 16
            ∧ Z.lor (Z.land (Z.shiftl a 1) 31) (Z.shiftr b 7) = (a mod 16) * 2 + b / 128
            ∧ Z.lor (Z.land (Z.shiftl a 3) 31) (Z.shiftr b 5) = (a mod 4) * 8 + b / 32).
  { intros a b Ha Hb.
    pose proof (byte_pair_cases
                  (λ a b,
                     (Z.lor (Z.land (Z.shiftl a 2) 31) (Z.land (Z.shiftr b 6) 31)
                      =? (a mod 8) * 4 + b / 64)
                     && (Z.lor (Z.land (Z.shiftl a 4) 31) (Z.land (Z.shiftr b 4) 31)
                         =? (a mod 2) * 16 + b / 16)
                     && (Z.lor (Z.land (Z.shiftl a 1) 31) (Z.shiftr b 7)
                         =? (a mod 16) * 2 + b / 128)
                     && (Z.lor (Z.land (Z.shiftl a 3) 31) (Z.shiftr b 5)
                         =? (a mod 4) * 8 + b / 32))
                  ltac:(vm_compute; reflexivity) a b Ha Hb) as Hc.
    simpl in Hc. repeat (apply andb_true_iff in Hc as [Hc ?]). lia. }
  destruct (Hone s0 H0) as (-> & _ & _ & _).
  destruct (Hone s1 H1) as (_ & -> & _ & _).
  destruct (Hone s3 H3) as (_ & _ & -> & _).
  destruct (Hone s4 H4) as (_ & _ & _ & ->).
  destruct (Htwo s0 s1 H0 H1) as (-> & _ & _ & _).
  destruct (Htwo s1 s2 H1 H2) as (_ & -> & _ & _).
  destruct (Htwo s2 s3 H2 H3) as (_ & _ & -> & _).
  destruct (Htwo s3 s4 H3 H4) as (_ & _ & _ & ->).
  done.
Qed.

Lemma quantum_five_bit (s0 s1 s2 s3 s4 : Z) :
  byte s0 → byte s1 → byte s2 → byte s3 → byte s4 →
  Forall five_bit (base32.quantum s0 s1 s2 s3 s4).
Proof.
  intros H0 H1 H2 H3 H4. rewrite quantum_is_arith by done.
  unfold quantum_arith, five_bit, byte in *.
  repeat apply Forall_cons_2; try apply Forall_nil_2; Z.div_mod_to_equations; lia.
Qed.

Lemma quantum_inj (s0 s1 s2 s3 s4 t0 t1 t2 t3 t4 : Z) :
  byte s0 → byte s1 → byte s2 → byte s3 → byte s4 →
  byte t0 → byte t1 → byte t2 → byte t3 → byte t4 →
  base32.quantum s0 s1 s2 s3 s4 = base32.quantum t0 t1 t2 t3 t4 →
  s0 = t0 ∧ s1 = t1 ∧ s2 = t2 ∧ s3 = t3 ∧ s4 = t4.
Proof.
  intros Hs0 Hs1 Hs2 Hs3 Hs4 Ht0 Ht1 Ht2 Ht3 Ht4.
  rewrite !quantum_is_arith by done.
  unfold quantum_arith, byte in *. intros [= E0 E1 E2 E3 E4 E5 E6 E7].
  Z.div_mod_to_equations. lia.
Qed.

Lemma five_bit_in (d : Z) : five_bit d → d ∈ all_five_bits.
Proof.
  intros [Hlo Hhi]. unfold all_five_bits.
  apply list_elem_of_fmap. exists (Z.to_nat d). split; [lia|].
  apply list_elem_of_In, in_seq. lia.
Qed.

Lemma five_bit_pair_cases (P : Z → Z → bool) :
  forallb (λ a, forallb (P a) all_five_bits) all_five_bits = true →
  ∀ a b, five_bit a → five_bit b → P a b = true.
Proof.
  intros Hall a b Ha Hb. rewrite forallb_forall in Hall.
  specialize (Hall a ltac:(by apply list_elem_of_In, five_bit_in)).
  rewrite forallb_forall in Hall.
  by apply Hall, list_elem_of_In, five_bit_in.
Qed.

Lemma lower_digit_inj (a b : Z) :
  five_bit a → five_bit b → lower_digit a = lower_digit b → a = b.
Proof.
  intros Ha Hb Heq.
  pose proof (five_bit_pair_cases
                (λ a b, implb (Ascii.eqb (lower_digit a) (lower_digit b)) (a =? b))
                ltac:(vm_compute; reflexivity) a b Ha Hb) as Hc.
  simpl in Hc. rewrite Heq, Ascii.eqb_refl in Hc. simpl in Hc. lia.
Qed.

Lemma lower_digit_alphabet (d : Z) : five_bit d → lower_digit d ∈ onion_alphabet.
Proof.
  intros Hd. apply five_bit_in in Hd.
  assert (Hall : Forall (λ d, lower_digit d ∈ onion_alphabet) all_five_bits).
  { vm_compute. repeat (apply Forall_cons_2; [apply list_elem_of_In; simpl; tauto|]).
    apply Forall_nil_2. }
  rewrite Forall_forall in Hall. by apply Hall.
Qed.

Lemma ToLower_app (a b : string) :
  go_strings.ToLower (a +:+ b) = go_strings.ToLower a +:+ go_strings.ToLower b.
Proof.
  induction a as [|c a IH]; [done|].
  change (String (go_strings.to_lower c) (go_strings.ToLower (a +:+ b))
          = String (go_strings.to_lower c) (go_strings.ToLower a +:+ go_strings.ToLower b)).
  by rewrite IH.
Qed.

Lemma ToLower_of_list (l : list ascii) :
  go_strings.ToLower (string_of_list_ascii l)
  = string_of_list_ascii (map go_strings.to_lower l).
Proof. induction l as [|c l IH]; simpl; [done|]. by rewrite IH. Qed.

Lemma Encode_block (s0 s1 s2 s3 s4 : Z) (rest : list Z) :
  go_strings.ToLower (base32.EncodeToString (s0 :: s1 :: s2 :: s3 :: s4 :: rest))
  = string_of_list_ascii (map lower_digit (base32.quantum s0 s1 s2 s3 s4))
    +:+ go_strings.ToLower (base32.EncodeToString rest).
Proof.
  change (base32.EncodeToString (s0 :: s1 :: s2 :: s3 :: s4 :: rest))
    with (string_of_list_ascii (map base32.digit (base32.quantum s0 s1 s2 s3 s4))
          +:+ base32.EncodeToString rest).
  rewrite ToLower_app, ToLower_of_list. by rewrite map_map.
Qed.

Lemma chars_app (l : list ascii) (r : string) :
  list_ascii_of_string (string_of_list_ascii l +:+ r)
  = (l ++ list_ascii_of_string r)%list.
Proof.
  induction l as [|c l IH]; [done|].
  change (c :: list_ascii_of_string (string_of_list_ascii l +:+ r)
          = c :: (l ++ list_ascii_of_string r)%list).
  by rewrite IH.
Qed.

Lemma chars_inj (a b : string) : list_ascii_of_string a = list_ascii_of_string b → a = b.
Proof.
  intros Heq. rewrite <- (string_of_list_ascii_of_string a), Heq.
  apply string_of_list_ascii_of_string.
Qed.

Lemma chars_length (s : string) : length (list_ascii_of_string s) = String.length s.
Proof. induction s as [|c s IH]; simpl; [done|]. by rewrite IH. Qed.

(** Lists of a whole number of five-byte groups. *)
Lemma groups_ind (P : list Z → Prop) :
  P [] →
  (∀ s0 s1 s2 s3 s4 rest, P rest → P (s0 :: s1 :: s2 :: s3 :: s4 :: rest)) →
  ∀ (k : nat) (l : list Z), length l = (5 * k)%nat → P l.
Proof.
  intros Hnil Hstep. induction k as [|k IH]; intros l Hlen.
  - destruct l; [done|discriminate Hlen].
  - destruct l as [|s0 [|s1 [|s2 [|s3 [|s4 rest]]]]]; simpl in Hlen; try lia.
    apply Hstep, IH. lia.
Qed.

Lemma Encode_chars (k : nat) (l : list Z) :
  length l = (5 * k)%nat → Forall byte l →
  let chars := list_ascii_of_string (go_strings.ToLower (base32.EncodeToString l)) in
  length chars = (8 * k)%nat ∧ Forall (λ c, c ∈ onion_alphabet) chars.
Proof.
  revert l. induction k as [|k IH]; intros l Hlen Hbytes.
  - destruct l; [|discriminate Hlen]. simpl. by split.
  - destruct l as [|s0 [|s1 [|s2 [|s3 [|s4 rest]]]]]; simpl in Hlen; try lia.
    repeat (apply Forall_cons_1 in Hbytes as [? Hbytes]).
    destruct (IH rest ltac:(lia) Hbytes) as [Hlength Halphabet].
    cbv zeta. rewrite Encode_block, chars_app. split.
    + rewrite length_app, Hlength. simpl. lia.
    + apply Forall_app. split; [|done].
      apply Forall_fmap. eapply Forall_impl; [by apply quantum_five_bit|].
      intros d Hd. by apply lower_digit_alphabet.
Qed.

Lemma map_lower_digit_inj (q q' : list Z) :
  Forall five_bit q → Forall five_bit q' →
  map lower_digit q = map lower_digit q' → q = q'.
Proof.
  intros Hq. revert q'. induction Hq as [|d q Hd _ IH]; intros [|d' q'] Hq' Heq;
    try discriminate Heq; [done|].
  apply Forall_cons_1 in Hq' as [Hd' Hq'].
  injection Heq as Hhead Htail.
  f_equal; [by apply lower_digit_inj|by apply IH].
Qed.

Lemma Encode_inj (k : nat) (l l' : list Z) :
  length l = (5 * k)%nat → length l' = (5 * k)%nat →
  Forall byte l → Forall byte l' →
  go_strings.ToLower (base32.EncodeToString l)
  = go_strings.ToLower (base32.EncodeToString l') →
  l = l'.
Proof.
  revert l l'. induction k as [|k IH]; intros l l' Hlen Hlen' Hbytes Hbytes' Heq.
  - destruct l, l'; try discriminate; done.
  - destruct l as [|s0 [|s1 [|s2 [|s3 [|s4 rest]]]]]; simpl in Hlen; try lia.
    destruct l' as [|t0 [|t1 [|t2 [|t3 [|t4 rest']]]]]; simpl in Hlen'; try lia.
    repeat (apply Forall_cons_1 in Hbytes as [? Hbytes]).
    repeat (apply Forall_cons_1 in Hbytes' as [? Hbytes']).
    rewrite !Encode_block in Heq.
    apply (f_equal list_ascii_of_string) in Heq. rewrite !chars_app in Heq.
    apply app_inj_1 in Heq as [Hblock Hrest]; [|by rewrite !length_map].
    apply map_lower_digit_inj in Hblock; [|by apply quantum_five_bit..].
    apply quantum_inj in Hblock as (-> & -> & -> & -> & ->); try done.
    do 5 f_equal. apply IH; try done; try lia. by apply chars_inj.
Qed.

Lemma Encode_last (k : nat) : ∀ (l : list Z) (v : Z),
  length l = (5 * S k)%nat → last l = Some v →
  last (list_ascii_of_string (go_strings.ToLower (base32.EncodeToString l)))
  = Some (lower_digit (Z.land v 31)).
Proof.
  induction k as [|k IH]; intros l v Hlen Hlast.
  - destruct l as [|s0 [|s1 [|s2 [|s3 [|s4 [|? ?]]]]]]; simpl in Hlen; try lia.
    injection Hlast as <-. by rewrite Encode_block, chars_app.
  - destruct l as [|s0 [|s1 [|s2 [|s3 [|s4 rest]]]]]; simpl in Hlen; try lia.
    assert (Hrest : last rest = Some v).
    { destruct rest as [|r rest]; [simpl in Hlen; lia|]. exact Hlast. }
    rewrite Encode_block, chars_app, last_app.
    by rewrite (IH rest v ltac:(lia) Hrest).
Qed.

Section ServiceID.
Variable Sum256 : list Z → list Z.

Lemma combined_groups (pub : list Z) :
  length pub = 32%nat → Forall byte pub →
  (∀ x, length (Sum256 x) = 32%nat ∧ Forall byte (Sum256 x)) →
  let combined := ((pub ++ server.getCheckdigits Sum256 pub) ++ [server.version])%list in
  length combined = (5 * 7)%nat ∧ Forall byte combined.
Proof.
  intros Hlen Hbytes Hsum. cbv zeta.
  unfold server.getCheckdigits. cbv zeta.
  set (checksum := Sum256 _).
  destruct (Hsum (((server.bytes server.salt ++ pub) ++ [server.version])%list))
    as [Hsumlen Hsumbytes].
  fold checksum in Hsumlen, Hsumbytes.
  split.
  - rewrite !length_app, length_take_le, Hlen by lia. simpl. lia.
  - apply Forall_app. split; [apply Forall_app; split|]; try done.
    + by apply Forall_take.
    + apply Forall_singleton. unfold byte, server.version. lia.
Qed.

(** X15: the service ID of a 32-byte public key, SHA3-256 giving 32
    bytes: 56 characters, each a lower-case letter or a digit from 2 to 7
    (no padding, no upper case), the last one a [d]. *)
Theorem service_ID_shape (pub : list Z) :
  length pub = 32%nat → Forall byte pub →
  (∀ x, length (Sum256 x) = 32%nat ∧ Forall byte (Sum256 x)) →
  String.length (server.getServiceID Sum256 pub) = 56%nat
  ∧ Forall (λ c, c ∈ onion_alphabet)
      (list_ascii_of_string (server.getServiceID Sum256 pub))
  ∧ last (list_ascii_of_string (server.getServiceID Sum256 pub)) = Some "d"%char.
Proof.
  intros Hlen Hbytes Hsum.
  destruct (combined_groups pub Hlen Hbytes Hsum) as [Hgroups Hcombined].
  destruct (Encode_chars 7 _ Hgroups Hcombined) as [Hlength Halphabet].
  unfold server.getServiceID. cbv zeta.
  split; [by rewrite <- chars_length, Hlength|]. split; [done|].
  by rewrite (Encode_last 6 _ server.version Hgroups (last_snoc _ _)).
Qed.

(** X16: the service ID tells the public key: two 32-byte keys with one
    service ID are one key. *)
Theorem service_ID_inj (pub pub' : list Z) :
  length pub = 32%nat → Forall byte pub →
  length pub' = 32%nat → Forall byte pub' →
  (∀ x, length (Sum256 x) = 32%nat ∧ Forall byte (Sum256 x)) →
  server.getServiceID Sum256 pub = server.getServiceID Sum256 pub' →
  pub = pub'.
Proof.
  intros Hlen Hbytes Hlen' Hbytes' Hsum Heq.
  destruct (combined_groups pub Hlen Hbytes Hsum) as [Hgroups Hcombined].
  destruct (combined_groups pub' Hlen' Hbytes' Hsum) as [Hgroups' Hcombined'].
  unfold server.getServiceID in Heq. cbv zeta in Heq.
  apply (Encode_inj 7) in Heq; try done.
  rewrite <- !app_assoc in Heq.
  apply app_inj_1 in Heq as [Hpub _]; [done|congruence].
Qed.
End ServiceID.

(** * The program of [cmd/server/main.go] *)

Lemma length_zero_false (s : string) : (String.length s =? 0)%nat = false ↔ s ≠ "".
Proof.
  rewrite <- length_zero_empty. destruct (String.length s =? 0)%nat; split; congruence.
Qed.

Lemma length_pos (s : string) : (0 <? String.length s)%nat = true ↔ s ≠ "".
Proof. destruct s; simpl; split; done. Qed.

Lemma length_pos_false (s : string) : (0 <? String.length s)%nat = false ↔ s = "".
Proof. destruct s; simpl; split; done. Qed.

Lemma default_not_empty (s d : string) :
  d ≠ "" →
  (String.length (if (String.length s =? 0)%nat then d else s) =? 0)%nat = false.
Proof.
  intros Hd. destruct (String.length s =? 0)%nat eqn:Hs; [|done].
  by apply length_zero_false.
Qed.

Lemma init_defaults (f f' : main.flags) :
  main.init f = Some f' →
  main.domain f' ≠ "" ∧ main.directoryType f' ≠ "" ∧ main.directoryHost f' ≠ ""
  ∧ main.directoryPort f' ≠ 0
  ∧ (main.seed f ≠ "" ∨ main.export f ≠ "" → main.withTor f' = true).
Proof.
  intros Hinit. unfold main.init in Hinit. cbv zeta in Hinit.
  destruct (negb _ && negb _) eqn:Hfatal; [done|]. injection Hinit as <-.
  cbn [main.domain main.directoryType main.directoryHost main.directoryPort main.withTor].
  split; [by apply length_zero_false, default_not_empty|].
  split; [by apply length_zero_false, default_not_empty|].
  split; [by apply length_zero_false, default_not_empty|].
  split; [by destruct (main.directoryPort f =? 0) eqn:Hp; [|apply Z.eqb_neq]|].
  intros Hgiven.
  destruct (String.length (main.export f) =? 0)%nat eqn:Hexport; [|done].
  simpl in *. destruct (main.withTor f); [done|]. simpl in Hfatal.
  apply negb_false_iff, length_zero_empty in Hfatal.
  apply length_zero_empty in Hexport. by destruct Hgiven.
Qed.


(** X18: [init] ends the process exactly when a seed is given with neither
    [-withTor] nor [-export]. *)
Theorem init_refuses_seed_without_tor (f : main.flags) :
  main.init f = None
  ↔ main.seed f ≠ "" ∧ main.withTor f = false ∧ main.export f = "".
Proof.
  unfold main.init. cbv zeta.
  destruct (String.length (main.export f) =? 0)%nat eqn:Hexport;
    destruct (main.withTor f) eqn:Htor;
    destruct (String.length (main.seed f) =? 0)%nat eqn:Hseed; simpl;
    rewrite ?length_zero_empty, ?length_zero_false in *;
    split; try done; try (intros (? & ? & ?); done).
Qed.

Lemma init_keeps (f f' : main.flags) :
  main.init f = Some f' →
  main.prefix f' = main.prefix f ∧ main.config f' = main.config f
  ∧ main.seed f' = main.seed f ∧ main.export f' = main.export f
  ∧ main.hostname f' = main.hostname f ∧ main.port f' = main.port f
  ∧ main.p2pBootstrap f' = main.p2pBootstrap f ∧ main.p2pRoom f' = main.p2pRoom f.
Proof.
  unfold main.init. cbv zeta.
  destruct (negb _ && negb _); [done|]. by intros [= <-].
Qed.

(** The calls of [run] when it does not generate keys, by what the
    environment answers. *)
Lemma run_calls (env : main.environment) (f : main.flags) :
  ∀ a, a ∈ fst (main.run env f) →
    a = main.GenKey (main.prefix f) ∧ main.prefix f ≠ ""
    ∨ main.prefix f = ""
      ∧ (a = main.Go (main.ConfigWatcher (main.config f)) ∧ main.config f ≠ ""
         ∨ a = main.New
                 {| main.Domain := main.domain f;
                    main.DirectoryType := main.directoryType f;
                    main.Directory_Hostname := main.directoryHost f;
                    main.Directory_Port := main.directoryPort f;
                    main.WithTor := main.withTor f;
                    main.P2P_Bootstrap := main.p2pBootstrap f;
                    main.P2P_Room := main.p2pRoom f |}
         ∨ a = main.RegisterAll
         ∨ (∃ text, a = main.Print text)
         ∨ a = main.StartWithTor (main.port f) (main.seed f) ∧ main.withTor f = true
         ∨ a = main.Start (main.hostname f) (main.port f) ∧ main.withTor f = false
         ∨ a = main.WaitForStart
         ∨ a = main.Notify [main.SIGINT; main.SIGTERM] ∨ a = main.Go main.AwaitSignal
         ∨ a = main.Stop ∧ main.created env = true ∧ main.registered env = None
           ∧ main.started env = None ∧ main.interrupted env = true).
Proof.
  intros a. unfold main.run, main.WaitForExit. cbv zeta.
  destruct (0 <? String.length (main.prefix f))%nat eqn:Hprefix.
  { apply length_pos in Hprefix. simpl. intros Hin%list_elem_of_singleton. by left. }
  apply length_pos_false in Hprefix.
  intros Hin. right. split; [done|]. revert Hin.
  destruct (0 <? String.length (main.config f))%nat eqn:Hconfig;
    [apply length_pos in Hconfig|];
    destruct (main.created env), (main.registered env), (main.started env),
      (main.withTor f), (main.interrupted env); simpl;
    intros Hin;
    repeat (apply elem_of_cons in Hin as [->|Hin]); try (by apply elem_of_nil in Hin);
    pick_case.
Qed.

Lemma main_calls (env : main.environment) (f : main.flags) :
  ∀ a, a ∈ fst (main.main env f) →
    (main.export f ≠ "" ∧ main.seed f ≠ ""
     ∧ (a = main.ExportHiddenServiceSecret (main.seed f)
        ∨ ∃ data, a = main.WriteFile (main.export f) data 384
                  ∧ main.exported env (main.seed f) = (data, None)))
    ∨ ((main.export f = "" ∨ main.seed f = "") ∧ a ∈ fst (main.run env f)).
Proof.
  intros a. unfold main.main.
  destruct (0 <? String.length (main.export f))%nat eqn:Hexport;
    [destruct (0 <? String.length (main.seed f))%nat eqn:Hseed|]; simpl.
  - apply length_pos in Hexport, Hseed. intros Hin. left. split; [done|]. split; [done|].
    destruct (main.exported env (main.seed f)) as [data [e|]]; simpl in Hin;
      repeat (apply elem_of_cons in Hin as [->|Hin]); try (by apply elem_of_nil in Hin);
      [by left|by left|]. right. by exists data.
  - apply length_pos_false in Hseed. intros Hin. right. split; [by right|].
    by destruct (main.run env f) as [calls [[e|]|e|code|]].
  - apply length_pos_false in Hexport. intros Hin. right. split; [by left|].
    by destruct (main.run env f) as [calls [[e|]|e|code|]].
Qed.

(** X19: with [-export] and [-seed] the program exports the secret and does
    nothing else, whatever the other flags: no key generation, no server.
    The file is written, with the mode 0600, only when the export
    succeeded, and holds what the export gave. *)
Theorem export_mode_only_exports (env : main.environment) (f : main.flags) :
  main.export f ≠ "" → main.seed f ≠ "" →
  ∀ a, a ∈ fst (main.main env f) →
    a = main.ExportHiddenServiceSecret (main.seed f)
    ∨ ∃ data, a = main.WriteFile (main.export f) data 384
              ∧ main.exported env (main.seed f) = (data, None).
Proof.
  intros Hexport Hseed a Hin.
  destruct (main_calls env f a Hin) as [(_ & _ & Hcall)|[[Hno|Hno] _]]; done.
Qed.

(** X20: the program from the flags the command line gave.  The server is only
    ever created with complete options (a domain, a directory type, a
    directory host and a directory port), a seed is never dropped (a start
    without Tor happens only when no seed was given, a start with Tor gets
    the seed as given), and the file of [-export] is written only when a
    seed was given. *)
Theorem program_serves_with_complete_options (env : main.environment) (f : main.flags) :
  ∀ a, a ∈ fst (main.program env f) →
    (∀ options, a = main.New options →
       main.Domain options ≠ "" ∧ main.DirectoryType options ≠ ""
       ∧ main.Directory_Hostname options ≠ "" ∧ main.Directory_Port options ≠ 0
       ∧ (main.seed f ≠ "" → main.WithTor options = true))
    ∧ (∀ hostname port, a = main.Start hostname port →
         main.seed f = "" ∧ hostname = main.hostname f ∧ port = main.port f)
    ∧ (∀ port seed, a = main.StartWithTor port seed →
         seed = main.seed f ∧ port = main.port f)
    ∧ (∀ name data perm, a = main.WriteFile name data perm →
         main.seed f ≠ "" ∧ name = main.export f).
Proof.
  intros a. unfold main.program.
  destruct (main.init f) as [f'|] eqn:Hinit; [|by intros Hin%elem_of_nil].
  destruct (init_defaults f f' Hinit) as (Hdomain & Htype & Hhost & Hport & Htor).
  destruct (init_keeps f f' Hinit) as (_ & _ & Hseed & Hexport & Hhostname & Hp & _).
  intros Hin. apply main_calls in Hin as [(Hex & Hsd & Hcall)|[_ Hin]].
  - rewrite Hseed, Hexport in *.
    destruct Hcall as [->|(data & -> & _)]; repeat split; try done;
      intros; simplify_eq; done.
  - apply run_calls in Hin as [[-> _]|[_ Hcase]]; [repeat split; done|].
    rewrite Hseed, Hhostname, Hp in *.
    destruct Hcase
      as [[-> _]|[->|[->|[[text ->]|[[-> Hwith]|[[-> Hwithout]|[->|[->|[->|[-> _]]]]]]]]]];
      repeat split; try done; intros; simplify_eq; simpl; try done.
    + apply Htor. by left.
    + destruct (decide (main.seed f = "")) as [Hnone|Hgiven]; [done|].
      rewrite Htor in Hwithout; [done|by left].
Qed.

(** X21: [run] stops the server exactly when it started it and was
    interrupted.  With no prefix to generate keys for: once the server is
    created, registered and started, [run] waits in [WaitForExit]; when a
    signal arrives it calls [Stop], once and as its last call, and returns
    no error; when none arrives it waits for ever, its last statement the
    [go] statement of [WaitForExit], and [Stop] is never called.  [Stop]
    is among the calls in the first case only.  When the start fails,
    [run] returns its error, the start its last call.  The configuration
    watcher is never called by [run] itself: it is started by a [go]
    statement, the first statement of the trace, when a configuration file
    is named, and not at all otherwise. *)
Theorem run_stops_what_it_started (env : main.environment) (f : main.flags) :
  main.prefix f = "" →
  (main.created env = true ∧ main.registered env = None ∧ main.started env = None →
   (main.interrupted env = true →
      snd (main.run env f) = main.Return None
      ∧ ∃ before, fst (main.run env f) = (before ++ [main.Stop])%list
                  ∧ (main.Stop ∉ before)
                  ∧ last before = Some (main.Go main.AwaitSignal))
   ∧ (main.interrupted env = false →
        snd (main.run env f) = main.Blocks
        ∧ last (fst (main.run env f)) = Some (main.Go main.AwaitSignal)))
  ∧ (main.Stop ∈ fst (main.run env f) ↔
     main.created env = true ∧ main.registered env = None ∧ main.started env = None
     ∧ main.interrupted env = true)
  ∧ (∀ e, main.created env = true → main.registered env = None →
          main.started env = Some e →
          snd (main.run env f) = main.Return (Some e)
          ∧ last (fst (main.run env f))
            = Some (if main.withTor f then main.StartWithTor (main.port f) (main.seed f)
                    else main.Start (main.hostname f) (main.port f)))
  ∧ (∀ c, main.ConfigWatcher c ∉ fst (main.run env f))
  ∧ (∀ c, main.Go (main.ConfigWatcher c) ∈ fst (main.run env f) ↔
          c = main.config f ∧ main.config f ≠ "")
  ∧ (main.config f ≠ "" →
     head (fst (main.run env f)) = Some (main.Go (main.ConfigWatcher (main.config f)))).
Proof.
  intros Hprefix.
  assert (Hstop : main.Stop ∈ fst (main.run env f) →
            main.created env = true ∧ main.registered env = None
            ∧ main.started env = None ∧ main.interrupted env = true).
  { intros Hin. apply run_calls in Hin as [[Hgen _]|[_ Hcase]]; [done|].
    destruct Hcase
      as [[? _]|[?|[?|[[text ?]|[[? _]|[[? _]|[?|[?|[?|[_ Hall]]]]]]]]]]; done. }
  assert (Hfine : main.created env = true → main.registered env = None →
            main.started env = None → main.interrupted env = true →
            snd (main.run env f) = main.Return None
            ∧ ∃ before, fst (main.run env f) = (before ++ [main.Stop])%list
                        ∧ (main.Stop ∉ before)
                        ∧ last before = Some (main.Go main.AwaitSignal)).
  { intros Hcreated Hregistered Hstarted Hsignal.
    unfold main.run, main.WaitForExit. cbv zeta.
    rewrite Hprefix, Hcreated, Hregistered, Hstarted, Hsignal. simpl.
    split; [done|]. eexists. split; [reflexivity|].
    split; [|by rewrite !last_app].
    rewrite !not_elem_of_app.
    destruct (0 <? String.length (main.config f))%nat, (main.withTor f);
      repeat split; try apply not_elem_of_nil;
      repeat (apply not_elem_of_cons; split; [done|]); apply not_elem_of_nil. }
  split; [|split; [|split; [|split; [|split]]]].
  - intros (Hcreated & Hregistered & Hstarted). split.
    + by apply Hfine.
    + intros Hsignal. unfold main.run, main.WaitForExit. cbv zeta.
      rewrite Hprefix, Hcreated, Hregistered, Hstarted, Hsignal. simpl.
      split; [done|]. by rewrite !last_app.
  - split; [exact Hstop|].
    intros (Hcreated & Hregistered & Hstarted & Hsignal).
    destruct (Hfine Hcreated Hregistered Hstarted Hsignal) as (_ & before & -> & _).
    apply elem_of_app. right. apply list_elem_of_here.
  - intros e Hcreated Hregistered Hstarted. unfold main.run. cbv zeta.
    rewrite Hprefix, Hcreated, Hregistered, Hstarted. simpl.
    split; [done|]. by rewrite !last_app.
  - intros c Hin. apply run_calls in Hin as [[Hgen _]|[_ Hcase]]; [done|].
    destruct Hcase
      as [[? _]|[?|[?|[[text ?]|[[? _]|[[? _]|[?|[?|[?|[? _]]]]]]]]]]; done.
  - intros c. split.
    + intros Hin. apply run_calls in Hin as [[Hgen _]|[_ Hcase]]; [done|].
      destruct Hcase
        as [[Hgo Hconfig]|[?|[?|[[text ?]|[[? _]|[[? _]|[?|[?|[?|[? _]]]]]]]]]]; try done.
      by injection Hgo as ->.
    + intros [-> Hconfig]. apply length_pos in Hconfig.
      unfold main.run, main.WaitForExit. cbv zeta. rewrite Hprefix, Hconfig. simpl.
      destruct (main.created env), (main.registered env), (main.started env),
        (main.interrupted env); simpl; apply list_elem_of_here.
  - intros Hconfig. apply length_pos in Hconfig.
    unfold main.run, main.WaitForExit. cbv zeta. rewrite Hprefix, Hconfig. simpl.
    by destruct (main.created env), (main.registered env), (main.started env),
      (main.interrupted env).
Qed.

(** * The properties of [server] and [main] at concrete inputs *)

Lemma sample_Sum512_bytes (x : list Z) :
  length (sample.Sum512 x) = 64%nat ∧ Forall byte (sample.Sum512 x).
Proof.
  unfold sample.Sum512. split; [by rewrite length_map, length_seq|].
  apply Forall_fmap, Forall_forall. intros i _. unfold byte. simpl.
  apply Z.mod_pos_bound. lia.
Qed.

Lemma sample_Sum256_bytes (x : list Z) :
  length (sample.Sum256 x) = 32%nat ∧ Forall byte (sample.Sum256 x).
Proof.
  unfold sample.Sum256. split; [by rewrite length_map, length_seq|].
  apply Forall_fmap, Forall_forall. intros i _. unfold byte. simpl.
  apply Z.mod_pos_bound. lia.
Qed.

Lemma sample_pub_bytes : length sample.pub = 32%nat ∧ Forall byte sample.pub.
Proof.
  split; [reflexivity|]. unfold sample.pub.
  apply Forall_fmap, Forall_forall. intros i Hi%list_elem_of_In%in_seq.
  unfold byte. simpl. lia.
Qed.

Lemma expanded_key_is_clamped_witness :
  server.len sample.pri_short = 16%nat
  ∧ server.expandKey sample.Sum512 sample.base64 sample.pri_short = None
  ∧ server.len sample.pri_cut = 16%nat
  ∧ server.expanded sample.Sum512 sample.pri_cut
    = server.expanded sample.Sum512 sample.pri
  ∧ ∃ h : list Z,
      server.expandKey sample.Sum512 sample.base64 sample.pri = Some (sample.base64 h)
      ∧ little_endian (take 32 h) mod 8 = 0
      ∧ 2 ^ 254 ≤ little_endian (take 32 h) < 2 ^ 255
      ∧ drop 32 h = drop 32 (sample.Sum512 (take 32 (server.elements sample.pri))).
Proof.
  split; [reflexivity|]. split.
  { destruct (sample_Sum512_bytes
                (take 32 (server.elements sample.pri_short
                          ++ server.spare sample.pri_short)%list))
      as [Hlength Hbytes].
    destruct (expanded_key_is_clamped sample.Sum512 sample.base64 sample.pri_short
                Hlength Hbytes) as [Hpanic _].
    apply Hpanic. vm_compute. lia. }
  split; [reflexivity|]. split; [reflexivity|].
  destruct (sample_Sum512_bytes
              (take 32 (server.elements sample.pri ++ server.spare sample.pri)%list))
    as [Hlength Hbytes].
  destruct (expanded_key_is_clamped sample.Sum512 sample.base64 sample.pri
              Hlength Hbytes) as [_ Hkey].
  destruct Hkey as (h & _ & Htext & _ & _ & Hmultiple & Hrange & Hhash & _).
  { vm_compute. lia. }
  exists h. split; [exact Htext|]. split; [exact Hmultiple|]. split; [exact Hrange|].
  exact Hhash.
Defined.

Lemma service_ID_shape_witness :
  String.length (server.getServiceID sample.Sum256 sample.pub) = 56%nat
  ∧ last (list_ascii_of_string (server.getServiceID sample.Sum256 sample.pub))
    = Some "d"%char.
Proof.
  destruct sample_pub_bytes as [Hlength Hbytes].
  destruct (service_ID_shape sample.Sum256 sample.pub Hlength Hbytes sample_Sum256_bytes)
    as (Hsize & _ & Hlast).
  split; [exact Hsize|exact Hlast].
Defined.

Lemma service_ID_inj_witness : sample.pub = sample.pub.
Proof.
  destruct sample_pub_bytes as [Hlength Hbytes].
  apply (service_ID_inj sample.Sum256 sample.pub sample.pub
           Hlength Hbytes Hlength Hbytes sample_Sum256_bytes).
  reflexivity.
Defined.


(** [-seed 00ff] alone ends the process. *)
Lemma init_refuses_seed_without_tor_witness : main.init sample.seed_only = None.
Proof.
  apply init_refuses_seed_without_tor. repeat split. discriminate.
Defined.

(** [-seed 00ff -export key.bin -prefix ab]: the file is written, and the
    prefix is not looked at. *)
Lemma export_mode_only_exports_witness :
  fst (main.main sample.fine sample.exporting)
  = [main.ExportHiddenServiceSecret "00ff"; main.WriteFile "key.bin" [1; 2; 3] 384]
  ∧ (main.WriteFile "key.bin" [1; 2; 3] 384 = main.ExportHiddenServiceSecret "00ff"
     ∨ ∃ data, main.WriteFile "key.bin" [1; 2; 3] 384 = main.WriteFile "key.bin" data 384
               ∧ main.exported sample.fine "00ff" = (data, None)).
Proof.
  split; [reflexivity|].
  apply (export_mode_only_exports sample.fine sample.exporting).
  - discriminate.
  - discriminate.
  - apply list_elem_of_further, list_elem_of_here.
Defined.

Lemma program_serves_with_complete_options_witness :
  main.Domain sample.options ≠ "" ∧ main.DirectoryType sample.options ≠ ""
  ∧ main.Directory_Hostname sample.options ≠ "" ∧ main.Directory_Port sample.options ≠ 0
  ∧ (main.seed sample.seed_with_tor ≠ "" → main.WithTor sample.options = true).
Proof.
  destruct (program_serves_with_complete_options sample.fine sample.seed_with_tor
              (main.New sample.options)) as (Hoptions & _).
  - apply list_elem_of_here.
  - by apply Hoptions.
Defined.

(** The server of [-config keys.yml]: interrupted, [run] returns with
    [Stop] as its last call; left alone it waits and never stops the
    server; the watcher is started first, by a [go] statement. *)
Lemma run_stops_what_it_started_witness :
  main.run sample.fine sample.watching
  = ([main.Go (main.ConfigWatcher "keys.yml");
      main.New {| main.Domain := ""; main.DirectoryType := "";
                  main.Directory_Hostname := ""; main.Directory_Port := 0;
                  main.WithTor := false;
                  main.P2P_Bootstrap := ""; main.P2P_Room := "samourai" |};
      main.RegisterAll; main.Print "Staring soroban...";
      main.Start "localhost" 4242; main.WaitForStart;
      main.Print "Soroban started: http://localhost:4242/";
      main.Notify [main.SIGINT; main.SIGTERM]; main.Go main.AwaitSignal;
      main.Stop], main.Return None)
  ∧ last (fst (main.run sample.fine sample.watching)) = Some main.Stop
  ∧ snd (main.run sample.unattended sample.watching) = main.Blocks
  ∧ last (fst (main.run sample.unattended sample.watching))
    = Some (main.Go main.AwaitSignal)
  ∧ head (fst (main.run sample.unattended sample.watching))
    = Some (main.Go (main.ConfigWatcher "keys.yml")).
Proof.
  split; [reflexivity|].
  destruct (run_stops_what_it_started sample.fine sample.watching eq_refl)
    as (Hserved & _).
  destruct (run_stops_what_it_started sample.unattended sample.watching eq_refl)
    as (Hwaits & _ & _ & _ & _ & Hfirst).
  destruct Hserved as [Hstop _]; [done|].
  destruct Hstop as (_ & before & Hcalls & _); [done|].
  destruct Hwaits as [_ Hblocks]; [done|].
  destruct Hblocks as [Hresult Hlast]; [done|].
  split; [by rewrite Hcalls, last_snoc|].
  split; [exact Hresult|]. split; [exact Hlast|].
  by apply Hfirst.
Defined.
